(** * tcp-port-used: the probe and the status waiter of [index.js]

    A shallow embedding of [check], [waitForStatus] and the four wait
    wrappers, and the properties of the polling state machine.

    JavaScript values are restricted to [undefined], [null], booleans,
    integral numbers, strings and references to plain objects.  Objects
    live in a heap, so that two references to one options object alias.
    The event loop is a step function: a step is one timer that fires or
    one socket event, together with the promise reactions it triggers
    (reactions run in the microtask checkpoint that follows the callback,
    before any other timer or socket event is dispatched). *)

From stdpp Require Import gmap strings list fin_maps.
From Stdlib Require Import ZArith.

Open Scope string_scope.

(** ** Values, objects and the heap *)

Inductive value :=
| VUndefined
| VNull
| VBool (b : bool)
| VNum (n : Z)
| VStr (s : string)
| VObj (l : nat).

#[global] Instance value_eq_dec : EqDecision value.
Proof. solve_decision. Defined.

(** [a === b]; on the values above strict equality is structural (objects
    compare by reference). *)
Definition strict_eq (a b : value) : bool := bool_decide (a = b).

Abbreviation object := (gmap string value).
Abbreviation heap := (gmap nat object).

(** [o.k]: a property that is not there reads as [undefined]. *)
Definition get (o : object) (k : string) : value := default VUndefined (o !! k).

Definition deref (h : heap) (v : value) : object :=
  match v with
  | VObj l => default ∅ (h !! l)
  | _ => ∅
  end.

(** [v.k] *)
Definition read (h : heap) (v : value) (k : string) : value := get (deref h v) k.

(** [v.k = x] *)
Definition write (h : heap) (v : value) (k : string) (x : value) : heap :=
  match v with
  | VObj l => <[l := <[k := x]> (deref h v)]> h
  | _ => h
  end.

(** An object literal: a new object, behind a new reference. *)
Definition alloc (h : heap) (o : object) : heap * value :=
  let l := fresh (dom h) in (<[l := o]> h, VObj l).

(** [Object.assign(target, ...sources)] copies the own properties of each
    source over the target, later sources winning; a property whose value
    is [undefined] is copied like any other. *)
Definition Object_assign (target : object) (sources : list object) : object :=
  foldl (fun t s => s ∪ t) target sources.

(** ** The predicates of [is2] used by the module

    The package [is2] is not part of the sources.  On the values above a
    number is an integer, so that "number", "integer" and the bounds are
    all there is to these predicates. *)

(** Modelled from the spec: [is.obj] of [is2], which tells a structured
    options value from a positional argument. *)
Definition is_obj (v : value) : bool :=
  match v with VObj _ => true | _ => false end.

(** Modelled from the spec: [is.bool] of [is2]; the desired status must be
    a boolean. *)
Definition is_bool (v : value) : bool :=
  match v with VBool _ => true | _ => false end.

(** Modelled from the spec: [is.positiveInt] of [is2]; the two durations
    are positive integers. *)
Definition is_positiveInt (v : value) : bool :=
  match v with VNum n => (0 <? n)%Z | _ => false end.

(** Modelled from the spec: [is.port] of [is2]; a port is an integer in
    [0, 65535]. *)
Definition is_port (v : value) : bool :=
  match v with VNum n => (0 <=? n)%Z && (n <=? 65535)%Z | _ => false end.

(** [util.inspect] belongs to the platform; the development is parametric
    in it.  It takes the heap because it prints the contents of objects. *)
Class Util := inspect : heap -> value -> string.

(** ** Errors and promises *)

(** An error object: its [code] property ([undefined] on a plain [Error])
    and its message. *)
Record error := Error { code : value; message : string }.

#[global] Instance error_eq_dec : EqDecision error.
Proof. solve_decision. Defined.

(** [new Error(msg)] *)
Definition new_Error (msg : string) : error := Error VUndefined msg.

Inductive promise (A : Type) :=
| Pending
| Fulfilled (v : A)
| Rejected (e : error).
Arguments Pending {A}.
Arguments Fulfilled {A} v.
Arguments Rejected {A} e.

(** Settling a promise that is already settled does nothing. *)
Definition resolve {A} (p : promise A) (v : A) : promise A :=
  match p with Pending => Fulfilled v | _ => p end.

Definition reject {A} (p : promise A) (e : error) : promise A :=
  match p with Pending => Rejected e | _ => p end.

Definition settled {A} (p : promise A) : bool :=
  match p with Pending => false | _ => true end.

(** ** Global values *)

Definition TIMEOUT : Z := 2000.
Definition RETRY_TIME : Z := 250.
Definition LOCALHOST : string := "127.0.0.1".

Definition makeOptionsObj (port host inUse retryTimeMs timeOutMs : value) : object :=
  <["port":=port]> (<["host":=host]> (<["inUse":=inUse]>
    (<["retryTimeMs":=retryTimeMs]> (<["timeOutMs":=timeOutMs]> ∅)))).

(** ** [check]: one probe *)

Module Probe.

(** What a probe does to its socket and to its promise, in order. *)
Inductive action :=
| NewSocket
| Once (ev : string)
| Connect (port host : value)
| RemoveAllListeners (ev : string)
| EndSocket
| Destroy
| Unref
| Resolve (inUse : bool)
| Reject (err : error).

#[global] Instance action_eq_dec : EqDecision action.
Proof. solve_decision. Defined.

(** The client socket: which of the two [once] listeners are attached, and
    whether it was ended, destroyed and unreferenced. *)
Record socket := Socket {
  on_connect : bool;
  on_error : bool;
  ended : bool;
  destroyed : bool;
  unrefed : bool
}.

(** The variables of one call of [check]. *)
Record probe := Mk {
  deferred : promise bool;
  inUse : bool;
  client : option socket
}.

Inductive socket_event :=
| EvConnect
| EvError (err : error).

Definition cleanUp (p : probe) : probe * list action :=
  match client p with
  | Some _ =>
      (Mk (deferred p) (inUse p) (Some (Socket false false true true true)),
       [RemoveAllListeners "connect"; RemoveAllListeners "error";
        EndSocket; Destroy; Unref])
  | None => (p, [])
  end.

Definition onConnectCb (p : probe) : probe * list action :=
  let p1 := Mk (resolve (deferred p) (inUse p)) (inUse p) (client p) in
  let '(p2, acts) := cleanUp p1 in
  (p2, Resolve (inUse p) :: acts).

Definition onErrorCb (err : error) (p : probe) : probe * list action :=
  let '(p1, a1) :=
    if strict_eq (code err) (VStr "ECONNREFUSED")
    then (Mk (resolve (deferred p) false) false (client p), [Resolve false])
    else (Mk (reject (deferred p) err) (inUse p) (client p), [Reject err]) in
  let '(p2, acts) := cleanUp p1 in
  (p2, (a1 ++ acts)%list).

(** The [opts] of [check]: the defaults, overridden by the object given as
    first argument or by the object made of the positional arguments. *)
Definition check_opts (h : heap) (port host : value) : object :=
  Object_assign {["host" := VStr LOCALHOST]}
    [if is_obj port then deref h port
     else makeOptionsObj port host VUndefined VUndefined VUndefined].

Section with_util.
Context `{!Util}.

(** [check(port, host)].  The result is the state of the call when it
    returns; the promise it returns is the [deferred] field.  [connect] is
    taken to report its outcome through the socket's events only. *)
Definition check (h : heap) (port host : value) : probe * list action :=
  let opts := check_opts h port host in
  if negb (is_port (get opts "port")) then
    let err := new_Error ("invalid port: " ++ inspect h (get opts "port")) in
    (Mk (reject Pending err) true None, [Reject err])
  else
    (Mk Pending true (Some (Socket true true false false false)),
     [NewSocket; Once "connect"; Once "error";
      Connect (get opts "port") (get opts "host")]).

End with_util.

(** The socket emits an event.  A [once] listener is detached before it is
    called; an event without a listener reaches no code of [check]. *)
Definition emit (p : probe) (ev : socket_event) : probe * list action :=
  match client p with
  | None => (p, [])
  | Some c =>
      match ev with
      | EvConnect =>
          if on_connect c
          then onConnectCb (Mk (deferred p) (inUse p)
                 (Some (Socket false (on_error c) (ended c) (destroyed c) (unrefed c))))
          else (p, [])
      | EvError err =>
          if on_error c
          then onErrorCb err (Mk (deferred p) (inUse p)
                 (Some (Socket (on_connect c) false (ended c) (destroyed c) (unrefed c))))
          else (p, [])
      end
  end.

(** A whole sequence of socket events. *)
Fixpoint emits (p : probe) (evs : list socket_event) : probe * list action :=
  match evs with
  | [] => (p, [])
  | ev :: evs' =>
      let '(p1, a1) := emit p ev in
      let '(p2, a2) := emits p1 evs' in
      (p2, (a1 ++ a2)%list)
  end.

(** *** Notions used to state the properties of a probe *)

(** The teardown of [cleanUp], in the order of the source. *)
Definition teardown : list action :=
  [RemoveAllListeners "connect"; RemoveAllListeners "error";
   EndSocket; Destroy; Unref].

(** The socket as [check] leaves it when it returns, and after [cleanUp]. *)
Definition fresh_socket : socket := Socket true true false false false.
Definition torn_down : socket := Socket false false true true true.

(** The calls that settle the promise of the probe. *)
Definition settles (a : action) : bool :=
  match a with Resolve _ | Reject _ => true | _ => false end.

(** The port [check] validates: the [port] property of the object, or the
    first positional argument. *)
Definition port_of (h : heap) (port : value) : value :=
  if is_obj port then read h port "port" else port.

(** The host [check] connects to. *)
Definition host_of (h : heap) (port host : value) : value :=
  get (check_opts h port host) "host".

End Probe.

(** ** [waitForStatus]: the polling session *)

Module StatusWaiter.

(** The two functions handed to [setTimeout]: [timeoutFunc], and the arrow
    function that calls [doCheck] again. *)
Inductive callback :=
| timeoutFunc_cb
| retry_cb.

#[global] Instance callback_eq_dec : EqDecision callback.
Proof. solve_decision. Defined.

(** What a session does, in order: its timers, the settling of the outer
    promise, and the actions of the probes it issues ([OfProbe i a] is
    action [a] of the [i]-th call of [check]). *)
Inductive action :=
| SetTimeout (id : nat) (cb : callback) (delay : value)
| ClearTimeout (id : nat)
| Resolve
| Reject (err : error)
| OfProbe (i : nat) (a : Probe.action).

#[global] Instance action_eq_dec : EqDecision action.
Proof. solve_decision. Defined.

(** The variables of one call of [waitForStatus] ([opts], [deferred],
    [timeoutId], [timedOut], [retryId]) and the part of the world it acts
    on: the heap, the timers that are armed (a timer leaves the table when
    it fires or is cleared), the probes issued so far and the trace.  A
    timer handle is always truthy, so [if (timeoutId)] tests whether the
    variable was assigned. *)
Record session := Mk {
  hp : heap;
  opts : value;
  deferred : promise unit;
  timeoutId : option nat;
  timedOut : bool;
  retryId : option nat;
  timers : gmap nat (callback * value);
  next_id : nat;
  probes : list Probe.probe;
  trace : list action
}.

Definition set_hp (h : heap) (s : session) : session :=
  Mk h (opts s) (deferred s) (timeoutId s) (timedOut s) (retryId s)
     (timers s) (next_id s) (probes s) (trace s).

Definition set_deferred (d : promise unit) (s : session) : session :=
  Mk (hp s) (opts s) d (timeoutId s) (timedOut s) (retryId s)
     (timers s) (next_id s) (probes s) (trace s).

Definition set_timeoutId (i : option nat) (s : session) : session :=
  Mk (hp s) (opts s) (deferred s) i (timedOut s) (retryId s)
     (timers s) (next_id s) (probes s) (trace s).

Definition set_timedOut (b : bool) (s : session) : session :=
  Mk (hp s) (opts s) (deferred s) (timeoutId s) b (retryId s)
     (timers s) (next_id s) (probes s) (trace s).

Definition set_retryId (i : option nat) (s : session) : session :=
  Mk (hp s) (opts s) (deferred s) (timeoutId s) (timedOut s) i
     (timers s) (next_id s) (probes s) (trace s).

Definition set_timers (t : gmap nat (callback * value)) (s : session) : session :=
  Mk (hp s) (opts s) (deferred s) (timeoutId s) (timedOut s) (retryId s)
     t (next_id s) (probes s) (trace s).

Definition set_next_id (n : nat) (s : session) : session :=
  Mk (hp s) (opts s) (deferred s) (timeoutId s) (timedOut s) (retryId s)
     (timers s) n (probes s) (trace s).

Definition set_probes (ps : list Probe.probe) (s : session) : session :=
  Mk (hp s) (opts s) (deferred s) (timeoutId s) (timedOut s) (retryId s)
     (timers s) (next_id s) ps (trace s).

Definition log (acts : list action) (s : session) : session :=
  Mk (hp s) (opts s) (deferred s) (timeoutId s) (timedOut s) (retryId s)
     (timers s) (next_id s) (probes s) (trace s ++ acts)%list.

(** [setTimeout(cb, delay)]: arms a new timer and returns its handle. *)
Definition setTimeout (cb : callback) (delay : value) (s : session) : nat * session :=
  let id := next_id s in
  (id, log [SetTimeout id cb delay]
         (set_next_id (S id) (set_timers (<[id := (cb, delay)]> (timers s)) s))).

(** [clearTimeout(id)]: a timer that has fired or was cleared is not in the
    table, and clearing it again changes nothing. *)
Definition clearTimeout (id : nat) (s : session) : session :=
  log [ClearTimeout id] (set_timers (delete id (timers s)) s).

Definition cleanUp (s : session) : session :=
  let s1 := match timeoutId s with Some id => clearTimeout id s | None => s end in
  match retryId s1 with Some id => clearTimeout id s1 | None => s1 end.

Definition timeoutFunc (s : session) : session :=
  let s1 := set_timedOut true s in
  let s2 := cleanUp s1 in
  log [Reject (new_Error "timeout")]
    (set_deferred (reject (deferred s2) (new_Error "timeout")) s2).

(** The first callback given to [then] in [doCheck]. *)
Definition onFulfilled (used : bool) (s : session) : session :=
  if timedOut s then s
  else if strict_eq (VBool used) (read (hp s) (opts s) "inUse") then
    cleanUp (log [Resolve] (set_deferred (resolve (deferred s) tt) s))
  else
    let '(id, s1) := setTimeout retry_cb (read (hp s) (opts s) "retryTimeMs") s in
    set_retryId (Some id) s1.

(** The second callback given to [then] in [doCheck]. *)
Definition onRejected (err : error) (s : session) : session :=
  if timedOut s then s
  else cleanUp (log [Reject err] (set_deferred (reject (deferred s) err) s)).

(** The reaction to the promise of a probe, run once, when it has settled. *)
Definition reaction (p : Probe.probe) (s : session) : session :=
  match Probe.deferred p with
  | Pending => s
  | Fulfilled used => onFulfilled used s
  | Rejected err => onRejected err s
  end.

Inductive event :=
| TimerFires (id : nat)
| SocketEmits (i : nat) (ev : Probe.socket_event).

Section with_util.
Context `{!Util}.

(** [doCheck()]: calls [check] and registers the two callbacks.  When
    [check] returns a promise that is already rejected, the reaction runs
    as soon as the running callback is over, so it is part of this step. *)
Definition doCheck (s : session) : session :=
  let '(p, acts) :=
    Probe.check (hp s) (read (hp s) (opts s) "port") (read (hp s) (opts s) "host") in
  let i := length (probes s) in
  reaction p (log (OfProbe i <$> acts) (set_probes (probes s ++ [p])%list s)).

(** [waitForStatus(port, host, inUse, retryTimeMs, timeOutMs)]: the session
    when the call has returned.  An argument that is not passed is
    [undefined]. *)
Definition waitForStatus (h : heap) (port host inUse retryTimeMs timeOutMs : value)
  : session :=
  let '(h0, o) :=
    if is_obj port then (h, port)
    else alloc h (makeOptionsObj port host inUse retryTimeMs timeOutMs) in
  let s0 := Mk h0 o Pending None false None ∅ 0 [] [] in
  if negb (is_bool (read h0 o "inUse")) then
    let err := new_Error "inUse must be a boolean" in
    log [Reject err] (set_deferred (reject (deferred s0) err) s0)
  else
    let s1 :=
      if negb (is_positiveInt (read (hp s0) o "retryTimeMs"))
      then set_hp (write (hp s0) o "retryTimeMs" (VNum RETRY_TIME)) s0 else s0 in
    let s2 :=
      if negb (is_positiveInt (read (hp s1) o "timeOutMs"))
      then set_hp (write (hp s1) o "timeOutMs" (VNum TIMEOUT)) s1 else s1 in
    let '(id, s3) := setTimeout timeoutFunc_cb (read (hp s2) o "timeOutMs") s2 in
    doCheck (set_timeoutId (Some id) s3).

(** One turn of the event loop.  A timer that is not armed does not fire;
    a socket event for which [check] holds no listener changes nothing. *)
Definition step (s : session) (e : event) : session :=
  match e with
  | TimerFires id =>
      match timers s !! id with
      | None => s
      | Some (cb, _) =>
          let s1 := set_timers (delete id (timers s)) s in
          match cb with
          | timeoutFunc_cb => timeoutFunc s1
          | retry_cb => doCheck s1
          end
      end
  | SocketEmits i ev =>
      match probes s !! i with
      | None => s
      | Some p =>
          let '(p', acts) := Probe.emit p ev in
          let s1 := log (OfProbe i <$> acts) (set_probes (<[i := p']> (probes s)) s) in
          if settled (Probe.deferred p) then s1 else reaction p' s1
      end
  end.

Definition run (s : session) (evs : list event) : session := foldl step s evs.

(** The wrappers.  [Object.assign({}, port, {...})] makes a new object;
    only that object is allocated here, the literal it is built from is
    not kept. *)
Definition waitUntilFreeOnHost (h : heap) (port host retryTimeMs timeOutMs : value)
  : session :=
  let '(h1, o) :=
    if is_obj port
    then alloc h (Object_assign ∅ [deref h port; {["inUse" := VBool false]}])
    else alloc h (makeOptionsObj port host (VBool false) retryTimeMs timeOutMs) in
  waitForStatus h1 o VUndefined VUndefined VUndefined VUndefined.

Definition waitUntilFree (h : heap) (port retryTimeMs timeOutMs : value) : session :=
  let '(h1, o) :=
    if is_obj port
    then alloc h (Object_assign ∅
           [deref h port;
            <["host" := VStr LOCALHOST]> {["inUse" := VBool false]}])
    else alloc h (makeOptionsObj port (VStr LOCALHOST) (VBool false)
                    retryTimeMs timeOutMs) in
  waitForStatus h1 o VUndefined VUndefined VUndefined VUndefined.

Definition waitUntilUsedOnHost (h : heap) (port host retryTimeMs timeOutMs : value)
  : session :=
  let '(h1, o) :=
    if is_obj port
    then (write h port "inUse" (VBool true), port)
    else alloc h (makeOptionsObj port host (VBool true) retryTimeMs timeOutMs) in
  waitForStatus h1 o VUndefined VUndefined VUndefined VUndefined.

Definition waitUntilUsed (h : heap) (port retryTimeMs timeOutMs : value) : session :=
  let '(h1, o) :=
    if is_obj port
    then alloc h (Object_assign ∅
           [deref h port;
            <["host" := VStr LOCALHOST]> {["inUse" := VBool true]}])
    else alloc h (makeOptionsObj port (VStr LOCALHOST) (VBool true)
                    retryTimeMs timeOutMs) in
  waitUntilUsedOnHost h1 o VUndefined VUndefined VUndefined.

End with_util.

(** *** Notions used to state the properties of a session *)

(** The options a call of [waitForStatus] works on: the object given as
    first argument, or the object made of the positional arguments. *)
Definition given (h : heap) (port host inUse retryTimeMs timeOutMs : value) : object :=
  if is_obj port then deref h port
  else makeOptionsObj port host inUse retryTimeMs timeOutMs.

(** The heap and the reference of those options: the positional arguments
    are put in a new object. *)
Definition target (h : heap) (port host inUse retryTimeMs timeOutMs : value)
  : heap * value :=
  if is_obj port then (h, port)
  else alloc h (makeOptionsObj port host inUse retryTimeMs timeOutMs).

(** The heap once the two defaults are written into object [o]. *)
Definition with_defaults (h : heap) (o : value) : heap :=
  let h1 :=
    if is_positiveInt (read h o "retryTimeMs") then h
    else write h o "retryTimeMs" (VNum RETRY_TIME) in
  if is_positiveInt (read h1 o "timeOutMs") then h1
  else write h1 o "timeOutMs" (VNum TIMEOUT).

(** The session at the point where the deadline timer is armed and
    [doCheck] is about to be called for the first time. *)
Definition armed (h : heap) (o : value) : session :=
  Mk h o Pending (Some 0) false None
     {[0 := (timeoutFunc_cb, read h o "timeOutMs")]} 1 []
     [SetTimeout 0 timeoutFunc_cb (read h o "timeOutMs")].

(** The session of a call that is refused for its [inUse]. *)
Definition refused (h : heap) (o : value) : session :=
  Mk h o (Rejected (new_Error "inUse must be a boolean")) None false None ∅ 0 []
     [Reject (new_Error "inUse must be a boolean")].

(** A value, or the default when it is not a positive integer. *)
Definition or_default (v : value) (d : Z) : value :=
  if is_positiveInt v then v else VNum d.

Definition all_settled (ps : list Probe.probe) : Prop :=
  Forall (fun p => settled (Probe.deferred p) = true) ps.

(** A probe whose promise is pending holds its socket with both listeners;
    a probe whose promise has settled has no socket or has torn it down. *)
Definition probe_wf (p : Probe.probe) : Prop :=
  match Probe.deferred p with
  | Pending => Probe.client p = Some Probe.fresh_socket
  | _ => Probe.client p = None \/ Probe.client p = Some Probe.torn_down
  end.

(** Actions of probes only: no timer, no settling of the outer promise. *)
Definition of_probe (a : action) : bool :=
  match a with OfProbe _ _ => true | _ => false end.

(** What no step of a session changes: the heap and the reference of the
    options. *)
Definition same_frame (s s' : session) : Prop :=
  hp s' = hp s /\ opts s' = opts s.

(** A session in which no probe is pending, no retry timer is armed, and
    every armed timer is the deadline timer. *)
Definition Quiet (s : session) : Prop :=
  Forall probe_wf (probes s) /\ all_settled (probes s) /\
  (forall id cb d, timers s !! id = Some (cb, d) ->
     id < next_id s /\ cb = timeoutFunc_cb /\ timeoutId s = Some id) /\
  (deferred s <> Pending -> timers s = ∅) /\
  (timedOut s = true -> deferred s = Rejected (new_Error "timeout")) /\
  (deferred s = Pending ->
     exists id d, timeoutId s = Some id /\ timers s !! id = Some (timeoutFunc_cb, d)).

(** The invariant of a session. *)
Record Inv (s : session) : Prop := {
  inv_probes : Forall probe_wf (probes s);
  inv_timers : forall id cb d, timers s !! id = Some (cb, d) ->
    id < next_id s /\
    match cb with
    | timeoutFunc_cb => timeoutId s = Some id
    | retry_cb => retryId s = Some id /\ all_settled (probes s)
    end;
  inv_one_pending : forall i j p q,
    probes s !! i = Some p -> probes s !! j = Some q ->
    Probe.deferred p = Pending -> Probe.deferred q = Pending -> i = j;
  inv_settled : deferred s <> Pending ->
    timers s = ∅ /\ (timedOut s = false -> all_settled (probes s));
  inv_timedOut : timedOut s = true -> deferred s = Rejected (new_Error "timeout");
  inv_deadline : deferred s = Pending ->
    exists id d, timeoutId s = Some id /\ timers s !! id = Some (timeoutFunc_cb, d)
}.

End StatusWaiter.


(** ** The interface of the module *)

Definition exports : list string :=
  ["check"; "waitUntilFreeOnHost"; "waitUntilFree"; "waitUntilUsedOnHost";
   "waitUntilUsed"; "waitForStatus"].

(** A rendering of values for the examples: it agrees with [util.inspect]
    on [undefined], [null], booleans and strings without quotes or escapes,
    the only values the examples print. *)
Definition sample_inspect : Util := fun _ v =>
  match v with
  | VUndefined => "undefined"
  | VNull => "null"
  | VBool true => "true"
  | VBool false => "false"
  | VStr s => "'" ++ s ++ "'"
  | _ => "[value]"
  end.

(** ** Notions used to state further properties of a session *)

(** The calls that settle the outer promise. *)
Definition outer_settles (a : StatusWaiter.action) : bool :=
  match a with
  | StatusWaiter.Resolve | StatusWaiter.Reject _ => true
  | _ => false
  end.

(** The port and the host the probes of a session connect to, as [check]
    works them out of [opts.port] and [opts.host]. *)
Definition conn_port (h : heap) (o : value) : value :=
  Probe.port_of h (read h o "port").

Definition conn_host (h : heap) (o : value) : value :=
  Probe.host_of h (read h o "port") (read h o "host").

(** What a session may do once its deadline timer is armed: every timer it
    sets is a retry timer with the delay [opts.retryTimeMs], and every
    connection goes to the port and host of the options. *)
Definition later_ok (h : heap) (o : value) (a : StatusWaiter.action) : Prop :=
  match a with
  | StatusWaiter.SetTimeout _ cb d =>
      cb = StatusWaiter.retry_cb /\ d = read h o "retryTimeMs"
  | StatusWaiter.OfProbe _ (Probe.Connect p host) =>
      p = conn_port h o /\ host = conn_host h o
  | _ => True
  end.

(** A session at work: a probe is in flight or a retry timer is armed. *)
Definition busy (s : StatusWaiter.session) : Prop :=
  (exists i p, StatusWaiter.probes s !! i = Some p /\ Probe.deferred p = Pending) \/
  (exists id d, StatusWaiter.timers s !! id = Some (StatusWaiter.retry_cb, d)).

(** The deadline timer of a session that is still waiting, the one call
    that settles a session, and the shape of its trace. *)
Record Steady (s : StatusWaiter.session) : Prop := {
  st_deadline : StatusWaiter.deferred s = Pending ->
    StatusWaiter.timeoutId s = Some 0 /\
    StatusWaiter.timers s !! 0
    = Some (StatusWaiter.timeoutFunc_cb,
            read (StatusWaiter.hp s) (StatusWaiter.opts s) "timeOutMs");
  st_settles :
    length (List.filter outer_settles (StatusWaiter.trace s))
    = if settled (StatusWaiter.deferred s) then 1 else 0;
  st_trace : exists rest,
    StatusWaiter.trace s
    = StatusWaiter.SetTimeout 0 StatusWaiter.timeoutFunc_cb
        (read (StatusWaiter.hp s) (StatusWaiter.opts s) "timeOutMs") :: rest /\
    Forall (later_ok (StatusWaiter.hp s) (StatusWaiter.opts s)) rest
}.

(** ** The version of the module in which [makeOptionsObj] normalises

    [src/unnamed/part_003] is a later version of [index.js]: every entry
    point takes a single options value, and [makeOptionsObj] writes the
    defaults.  Its [cleanUp], [timeoutFunc] and the two callbacks of
    [doCheck] are, word for word, those of [index.js]; they are shared. *)

Module Later.

(** [makeOptionsObj(port, host, inUse, retryTimeMs, timeOutMs)]: the object
    it returns is its first argument when that is an object, and otherwise
    a new object with the five properties, the literal of [makeOptionsObj]
    of [index.js]; it writes the defaults into it. *)
Definition makeOptionsObj (h : heap) (port host inUse retryTimeMs timeOutMs : value)
  : heap * value :=
  let '(h0, opts) :=
    if is_obj port then (h, port)
    else alloc h (makeOptionsObj port host inUse retryTimeMs timeOutMs) in
  let h1 :=
    if negb (is_positiveInt (read h0 opts "retryTimeMs"))
    then write h0 opts "retryTimeMs" (VNum RETRY_TIME) else h0 in
  let h2 :=
    if negb (is_positiveInt (read h1 opts "timeOutMs"))
    then write h1 opts "timeOutMs" (VNum TIMEOUT) else h1 in
  let h3 :=
    if strict_eq (read h2 opts "host") VUndefined
    then write h2 opts "host" (VStr LOCALHOST) else h2 in
  (h3, opts).

Section with_util.
Context `{!Util}.

(** [check(port, host)]: the heap when the call returns, the state of the
    call and its actions. *)
Definition check (h : heap) (port host : value)
  : heap * Probe.probe * list Probe.action :=
  let '(h1, o) := makeOptionsObj h port host VUndefined VUndefined VUndefined in
  let opts := Object_assign {["host" := VStr LOCALHOST]} [deref h1 o] in
  if negb (is_port (get opts "port")) then
    let err := new_Error ("invalid port: " ++ inspect h1 (get opts "port")) in
    (h1, Probe.Mk (reject Pending err) true None, [Probe.Reject err])
  else
    (h1, Probe.Mk Pending true (Some (Probe.Socket true true false false false)),
     [Probe.NewSocket; Probe.Once "connect"; Probe.Once "error";
      Probe.Connect (get opts "port") (get opts "host")]).

Definition doCheck (s : StatusWaiter.session) : StatusWaiter.session :=
  let '(h1, p, acts) :=
    check (StatusWaiter.hp s)
      (read (StatusWaiter.hp s) (StatusWaiter.opts s) "port")
      (read (StatusWaiter.hp s) (StatusWaiter.opts s) "host") in
  let i := length (StatusWaiter.probes s) in
  StatusWaiter.reaction p
    (StatusWaiter.log (StatusWaiter.OfProbe i <$> acts)
       (StatusWaiter.set_probes (StatusWaiter.probes s ++ [p])%list
          (StatusWaiter.set_hp h1 s))).

(** [waitForStatus(options)] *)
Definition waitForStatus (h : heap) (options : value) : StatusWaiter.session :=
  let '(h0, o) :=
    makeOptionsObj h options VUndefined VUndefined VUndefined VUndefined in
  let s0 := StatusWaiter.Mk h0 o Pending None false None ∅ 0 [] [] in
  if negb (is_bool (read h0 o "inUse")) then
    let err := new_Error "inUse must be a boolean" in
    StatusWaiter.log [StatusWaiter.Reject err]
      (StatusWaiter.set_deferred (reject (StatusWaiter.deferred s0) err) s0)
  else
    let '(id, s1) :=
      StatusWaiter.setTimeout StatusWaiter.timeoutFunc_cb (read h0 o "timeOutMs") s0 in
    doCheck (StatusWaiter.set_timeoutId (Some id) s1).

Definition step (s : StatusWaiter.session) (e : StatusWaiter.event)
  : StatusWaiter.session :=
  match e with
  | StatusWaiter.TimerFires id =>
      match StatusWaiter.timers s !! id with
      | None => s
      | Some (cb, _) =>
          let s1 := StatusWaiter.set_timers (delete id (StatusWaiter.timers s)) s in
          match cb with
          | StatusWaiter.timeoutFunc_cb => StatusWaiter.timeoutFunc s1
          | StatusWaiter.retry_cb => doCheck s1
          end
      end
  | StatusWaiter.SocketEmits i ev =>
      match StatusWaiter.probes s !! i with
      | None => s
      | Some p =>
          let '(p', acts) := Probe.emit p ev in
          let s1 :=
            StatusWaiter.log (StatusWaiter.OfProbe i <$> acts)
              (StatusWaiter.set_probes (<[i := p']> (StatusWaiter.probes s)) s) in
          if settled (Probe.deferred p) then s1 else StatusWaiter.reaction p' s1
      end
  end.

Definition run (s : StatusWaiter.session) (evs : list StatusWaiter.event)
  : StatusWaiter.session := foldl step s evs.

(** [waitUntilFree(options)] and [waitUntilUsed(options)]: a copy of the
    normalised options, with [inUse] set. *)
Definition waitUntilFree (h : heap) (options : value) : StatusWaiter.session :=
  let '(h1, o) :=
    makeOptionsObj h options VUndefined VUndefined VUndefined VUndefined in
  let '(h2, c) := alloc h1 (Object_assign ∅ [deref h1 o; {["inUse" := VBool false]}]) in
  waitForStatus h2 c.

Definition waitUntilUsed (h : heap) (options : value) : StatusWaiter.session :=
  let '(h1, o) :=
    makeOptionsObj h options VUndefined VUndefined VUndefined VUndefined in
  let '(h2, c) := alloc h1 (Object_assign ∅ [deref h1 o; {["inUse" := VBool true]}]) in
  waitForStatus h2 c.

End with_util.

(** *** Notions used to state its properties *)

(** The heap once [host] is defaulted in object [o]. *)
Definition with_host (h : heap) (o : value) : heap :=
  if strict_eq (read h o "host") VUndefined
  then write h o "host" (VStr LOCALHOST) else h.

(** A host, or the loopback address when it is [undefined]. *)
Definition or_localhost (v : value) : value :=
  if strict_eq v VUndefined then VStr LOCALHOST else v.

(** Two sessions that differ at most in the heap, where the second has
    every object of the first and the same options. *)
Definition alike (s s' : StatusWaiter.session) : Prop :=
  StatusWaiter.hp s ⊆ StatusWaiter.hp s' /\
  StatusWaiter.opts s' = StatusWaiter.opts s /\
  deref (StatusWaiter.hp s') (StatusWaiter.opts s)
  = deref (StatusWaiter.hp s) (StatusWaiter.opts s) /\
  StatusWaiter.deferred s' = StatusWaiter.deferred s /\
  StatusWaiter.timeoutId s' = StatusWaiter.timeoutId s /\
  StatusWaiter.timedOut s' = StatusWaiter.timedOut s /\
  StatusWaiter.retryId s' = StatusWaiter.retryId s /\
  StatusWaiter.timers s' = StatusWaiter.timers s /\
  StatusWaiter.next_id s' = StatusWaiter.next_id s /\
  StatusWaiter.probes s' = StatusWaiter.probes s /\
  StatusWaiter.trace s' = StatusWaiter.trace s.

(** The condition under which the two versions of [doCheck] agree: the
    options are an object of the heap, their port is not an object and
    their host is not [undefined]. *)
Definition plain_options (h : heap) (o : value) : Prop :=
  (exists l, o = VObj l /\ is_Some (h !! l)) /\
  is_obj (read h o "port") = false /\
  read h o "host" <> VUndefined.

End Later.

(** A caller's options object and a refusal, for the examples. *)
Definition sample_heap : heap :=
  {[0 := <["port" := VNum 44205]> {["inUse" := VBool true]}]}.
Definition sample_refusal : error := Error (VStr "ECONNREFUSED") "connect ECONNREFUSED".

(** * Properties *)

(** ** The probe *)

Section probe_facts.
Import Probe.

Lemma check_opts_port h port host :
  get (check_opts h port host) "port" = port_of h port.
Proof.
  unfold check_opts, port_of, Object_assign, read, get. simpl.
  destruct (is_obj port).
  - rewrite lookup_union. rewrite lookup_singleton_ne by done.
    by destruct (deref h port !! "port").
  - unfold makeOptionsObj. rewrite lookup_union.
    by rewrite lookup_insert_eq.
Qed.

Lemma emit_no_listener p c ev :
  client p = Some c -> on_connect c = false -> on_error c = false ->
  emit p ev = (p, []).
Proof.
  intros Hc H1 H2. unfold emit. rewrite Hc, H1, H2. by destruct ev.
Qed.

Lemma emit_no_client p ev : client p = None -> emit p ev = (p, []).
Proof. intros Hc. unfold emit. by rewrite Hc. Qed.

Lemma emits_no_listener p c evs :
  client p = Some c -> on_connect c = false -> on_error c = false ->
  emits p evs = (p, []).
Proof.
  intros Hc H1 H2. induction evs as [|ev evs IH]; [done|].
  simpl. rewrite (emit_no_listener p c ev Hc H1 H2). by rewrite IH.
Qed.

Lemma emit_connect_fresh b :
  emit (Mk Pending b (Some fresh_socket)) EvConnect
  = (Mk (Fulfilled b) b (Some torn_down), Resolve b :: teardown).
Proof. reflexivity. Qed.

Lemma emit_refused_fresh b err :
  code err = VStr "ECONNREFUSED" ->
  emit (Mk Pending b (Some fresh_socket)) (EvError err)
  = (Mk (Fulfilled false) false (Some torn_down), Resolve false :: teardown).
Proof. intros Hc. unfold emit, onErrorCb. simpl. by rewrite Hc. Qed.

Lemma emit_error_fresh b err :
  code err <> VStr "ECONNREFUSED" ->
  emit (Mk Pending b (Some fresh_socket)) (EvError err)
  = (Mk (Rejected err) b (Some torn_down), Reject err :: teardown).
Proof.
  intros Hc. unfold emit, onErrorCb, strict_eq. simpl.
  by rewrite bool_decide_eq_false_2.
Qed.

Context `{!Util}.

Lemma check_valid h port host :
  is_port (port_of h port) = true ->
  check h port host
  = (Mk Pending true (Some fresh_socket),
     [NewSocket; Once "connect"; Once "error";
      Connect (port_of h port) (host_of h port host)]).
Proof.
  intros Hp. unfold check. rewrite check_opts_port, Hp. reflexivity.
Qed.

Lemma check_invalid h port host :
  is_port (port_of h port) = false ->
  check h port host
  = (Mk (Rejected (new_Error ("invalid port: " ++ inspect h (port_of h port))))
        true None,
     [Reject (new_Error ("invalid port: " ++ inspect h (port_of h port)))]).
Proof.
  intros Hp. unfold check. rewrite check_opts_port, Hp. reflexivity.
Qed.

End probe_facts.

(** ** The session *)

Import StatusWaiter.

(** Unfolding the updates of a session whose fields are known. *)
Ltac session_simpl :=
  unfold setTimeout, clearTimeout, log, set_hp, set_deferred, set_timeoutId,
    set_timedOut, set_retryId, set_timers, set_next_id, set_probes in *;
  simpl in *.

(** The same by call-by-value, for the nested updates of a whole step. *)
Ltac session_cbn :=
  cbv beta iota zeta delta
    [setTimeout clearTimeout log set_hp set_deferred set_timeoutId set_timedOut
     set_retryId set_timers set_next_id set_probes
     hp opts deferred timeoutId timedOut retryId timers next_id probes trace
     reject resolve fst snd] in *;
  cbn [app fmap list_fmap length option_list
       Probe.deferred Probe.client Probe.inUse] in *.

Section heap_facts.

Lemma read_write_eq h v k x : is_obj v = true -> read (write h v k x) v k = x.
Proof.
  destruct v; try done. intros _. unfold read, write, get; simpl.
  by rewrite lookup_insert_eq; simpl; rewrite lookup_insert_eq.
Qed.

Lemma read_write_ne h v k k' x : k <> k' -> read (write h v k x) v k' = read h v k'.
Proof.
  intros Hne. destruct v; try done. unfold read, write, get; simpl.
  by rewrite lookup_insert_eq; simpl; rewrite lookup_insert_ne.
Qed.

Lemma deref_write h v k x :
  is_obj v = true -> deref (write h v k x) v = <[k := x]> (deref h v).
Proof. destruct v; try done. intros _. simpl. by rewrite lookup_insert_eq. Qed.

Lemma with_defaults_retry h o :
  is_obj o = true ->
  read (with_defaults h o) o "retryTimeMs" = or_default (read h o "retryTimeMs") RETRY_TIME.
Proof.
  intros Ho. unfold with_defaults, or_default.
  destruct (is_positiveInt (read h o "retryTimeMs")) eqn:E1;
    match goal with |- context [if is_positiveInt ?v then _ else _] =>
      destruct (is_positiveInt v) end;
    rewrite ?read_write_ne by done; rewrite ?read_write_eq by done; done.
Qed.

Lemma with_defaults_timeout h o :
  is_obj o = true ->
  read (with_defaults h o) o "timeOutMs" = or_default (read h o "timeOutMs") TIMEOUT.
Proof.
  intros Ho. unfold with_defaults, or_default.
  destruct (is_positiveInt (read h o "retryTimeMs")) eqn:E1;
    rewrite ?read_write_ne by done;
    destruct (is_positiveInt (read h o "timeOutMs")) eqn:E2;
    rewrite ?read_write_ne by done; rewrite ?read_write_eq by done; done.
Qed.

Lemma with_defaults_other h o k :
  k <> "retryTimeMs" -> k <> "timeOutMs" ->
  read (with_defaults h o) o k = read h o k.
Proof.
  intros H1 H2. unfold with_defaults.
  destruct (is_positiveInt (read h o "retryTimeMs")) eqn:E1;
    match goal with |- context [if is_positiveInt ?v then _ else _] =>
      destruct (is_positiveInt v) end;
    rewrite ?read_write_ne by done; done.
Qed.

(** The object the defaults leave behind reference [o]. *)
Lemma deref_with_defaults h o :
  is_obj o = true ->
  deref (with_defaults h o) o
  = (if is_positiveInt (read h o "timeOutMs") then id
     else <["timeOutMs" := VNum TIMEOUT]>)
      ((if is_positiveInt (read h o "retryTimeMs") then id
        else <["retryTimeMs" := VNum RETRY_TIME]>) (deref h o)).
Proof.
  intros Ho. unfold with_defaults.
  destruct (is_positiveInt (read h o "retryTimeMs")) eqn:E1;
    rewrite ?read_write_ne by done;
    destruct (is_positiveInt (read h o "timeOutMs")) eqn:E2;
    rewrite ?deref_write by done; done.
Qed.

(** The defaults touch no other object. *)
Lemma with_defaults_frame h l l' :
  l <> l' -> with_defaults h (VObj l) !! l' = h !! l'.
Proof.
  intros Hne. unfold with_defaults.
  destruct (is_positiveInt (read h (VObj l) "retryTimeMs"));
    match goal with |- context [if is_positiveInt ?v then _ else _] =>
      destruct (is_positiveInt v) end;
    simpl; rewrite ?lookup_insert_ne by done; done.
Qed.

Lemma target_spec h port host inUse retryTimeMs timeOutMs :
  let '(h0, o) := target h port host inUse retryTimeMs timeOutMs in
  is_obj o = true /\
  deref h0 o = given h port host inUse retryTimeMs timeOutMs.
Proof.
  unfold target, given, alloc. destruct (is_obj port) eqn:E; [done|].
  split; [done|]. simpl. by rewrite lookup_insert_eq.
Qed.

End heap_facts.

Section session_facts.

(** [cleanUp] touches the timer table and the trace only. *)
Lemma cleanUp_timers s :
  timers (cleanUp s)
  = from_option delete id (retryId s) (from_option delete id (timeoutId s) (timers s)).
Proof. unfold cleanUp. destruct s as [? ? ? [t|] ? [r|] ? ? ? ?]; reflexivity. Qed.

Lemma cleanUp_frame s :
  hp (cleanUp s) = hp s /\ opts (cleanUp s) = opts s /\
  deferred (cleanUp s) = deferred s /\ timeoutId (cleanUp s) = timeoutId s /\
  timedOut (cleanUp s) = timedOut s /\ retryId (cleanUp s) = retryId s /\
  next_id (cleanUp s) = next_id s /\ probes (cleanUp s) = probes s.
Proof. unfold cleanUp. destruct s as [? ? ? [t|] ? [r|] ? ? ? ?]; repeat split. Qed.

(** When every armed timer is the one named by [timeoutId] or by
    [retryId], [cleanUp] leaves no timer armed. *)
Lemma cleanUp_clears s :
  (forall id cb d, timers s !! id = Some (cb, d) ->
     timeoutId s = Some id \/ retryId s = Some id) ->
  timers (cleanUp s) = ∅.
Proof.
  intros Hall. rewrite cleanUp_timers. apply map_eq. intros id.
  rewrite lookup_empty.
  destruct (timers s !! id) as [[cb d]|] eqn:Hid.
  - destruct (Hall _ _ _ Hid) as [Ht|Hr].
    + rewrite Ht. simpl. destruct (retryId s) as [r|]; simpl.
      * destruct (decide (r = id)) as [->|Hne]; [by rewrite lookup_delete_eq|].
        rewrite lookup_delete_ne by done. by rewrite lookup_delete_eq.
      * by rewrite lookup_delete_eq.
    + rewrite Hr. simpl. by rewrite lookup_delete_eq.
  - destruct (retryId s) as [r|], (timeoutId s) as [t|]; simpl;
      repeat (apply lookup_delete_None; right); done.
Qed.

Lemma all_settled_one_pending ps i j p q :
  all_settled ps -> ps !! i = Some p -> ps !! j = Some q ->
  Probe.deferred p = Pending -> Probe.deferred q = Pending -> i = j.
Proof.
  intros Hall Hi _ Hp _. unfold all_settled in Hall.
  rewrite Forall_lookup in Hall. specialize (Hall _ _ Hi). simpl in Hall.
  rewrite Hp in Hall. discriminate.
Qed.

Lemma Quiet_Inv s : Quiet s -> Inv s.
Proof.
  intros (Hwf & Hall & Htm & Hset & Hto & Hdl). split; try done.
  - intros id cb d Hid. destruct (Htm _ _ _ Hid) as (? & -> & ?). done.
  - eauto using all_settled_one_pending.
  - intros Hd. split; [auto | done].
Qed.

Lemma Inv_settle_and_cleanUp s d' acts :
  Quiet s -> timedOut s = false -> d' <> Pending ->
  Inv (cleanUp (log acts (set_deferred d' s))).
Proof.
  intros (Hwf & Hall & Htm & Hset & Hto & Hdl) Hno Hd'.
  pose proof (cleanUp_frame (log acts (set_deferred d' s)))
    as (_ & _ & Ed & Et & Eto & Er & En & Ep).
  assert (Hclr : timers (cleanUp (log acts (set_deferred d' s))) = ∅).
  { apply cleanUp_clears. intros id cb d Hid. left.
    destruct s; simpl in *. by destruct (Htm _ _ _ Hid) as (_ & _ & ?). }
  destruct s as [h o d tid to rid tm n ps tr]; simpl in *.
  split; rewrite ?Hclr, ?Ed, ?Et, ?Eto, ?Er, ?En, ?Ep; simpl; try done.
  - eauto using all_settled_one_pending.
  - subst to. done.
Qed.

Lemma Inv_retry s :
  Quiet s -> deferred s = Pending ->
  Inv (set_retryId (Some (next_id s))
         (setTimeout retry_cb (read (hp s) (opts s) "retryTimeMs") s).2).
Proof.
  intros (Hwf & Hall & Htm & Hset & Hto & Hdl) Hpend.
  destruct s as [h o d tid to rid tm n ps tr]; simpl in *. subst d.
  split; simpl; try done.
  - intros id cb dl. rewrite lookup_insert. case_decide as Hn.
    + intros [= <- <-]. subst id. split; [lia | done].
    + intros Hid. destruct (Htm _ _ _ Hid) as (? & -> & ?). split; [lia | done].
  - eauto using all_settled_one_pending.
  - intros _. destruct (Hdl eq_refl) as (id & dl & ? & Hid).
    exists id, dl. split; [done|].
    rewrite lookup_insert_ne; [done|]. destruct (Htm _ _ _ Hid). lia.
Qed.

Lemma Inv_onFulfilled s used :
  Quiet s -> (deferred s <> Pending -> timedOut s = true) -> Inv (onFulfilled used s).
Proof.
  intros HQ Hlive. unfold onFulfilled.
  destruct (timedOut s) eqn:Hto; [by apply Quiet_Inv|].
  assert (Hp : deferred s = Pending).
  { destruct (deferred s) eqn:E; [done | |]; by specialize (Hlive ltac:(done)). }
  destruct (strict_eq _ _).
  - apply Inv_settle_and_cleanUp; [done..|]. by rewrite Hp.
  - by apply Inv_retry.
Qed.

Lemma Inv_onRejected s err :
  Quiet s -> (deferred s <> Pending -> timedOut s = true) -> Inv (onRejected err s).
Proof.
  intros HQ Hlive. unfold onRejected.
  destruct (timedOut s) eqn:Hto; [by apply Quiet_Inv|].
  assert (Hp : deferred s = Pending).
  { destruct (deferred s) eqn:E; [done | |]; by specialize (Hlive ltac:(done)). }
  apply Inv_settle_and_cleanUp; [done..|]. by rewrite Hp.
Qed.

Lemma Inv_reaction s p :
  Quiet s -> (deferred s <> Pending -> timedOut s = true) -> Inv (reaction p s).
Proof.
  intros HQ Hlive. unfold reaction.
  destruct (Probe.deferred p);
    [by apply Quiet_Inv | by apply Inv_onFulfilled | by apply Inv_onRejected].
Qed.

Lemma emit_settled p ev :
  probe_wf p -> settled (Probe.deferred p) = true -> Probe.emit p ev = (p, []).
Proof.
  unfold probe_wf. intros Hwf Hs.
  destruct (Probe.deferred p); [done | |];
    (destruct Hwf as [Hc|Hc];
     [by apply emit_no_client | by eapply emit_no_listener]).
Qed.

Lemma emit_pending p ev :
  probe_wf p -> Probe.deferred p = Pending ->
  exists d a,
    Probe.emit p ev = (Probe.Mk d (match ev with
                                   | Probe.EvConnect => Probe.inUse p
                                   | Probe.EvError err =>
                                       if strict_eq (code err) (VStr "ECONNREFUSED")
                                       then false else Probe.inUse p
                                   end) (Some Probe.torn_down),
                       a :: Probe.teardown)
    /\ Probe.settles a = true
    /\ d <> Pending
    /\ match ev with
       | Probe.EvConnect => d = Fulfilled (Probe.inUse p) /\ a = Probe.Resolve (Probe.inUse p)
       | Probe.EvError err =>
           if strict_eq (code err) (VStr "ECONNREFUSED")
           then d = Fulfilled false /\ a = Probe.Resolve false
           else d = Rejected err /\ a = Probe.Reject err
       end.
Proof.
  unfold probe_wf. intros Hwf Hp. rewrite Hp in Hwf.
  destruct p as [d b c]; simpl in *. subst d c.
  destruct ev as [|err].
  - eexists _, _. rewrite emit_connect_fresh. done.
  - unfold strict_eq. case_bool_decide as Hc.
    + eexists _, _. rewrite emit_refused_fresh by done. done.
    + eexists _, _. rewrite emit_error_fresh by done. done.
Qed.

Lemma pending_snoc (ps : list Probe.probe) p k r :
  all_settled ps -> (ps ++ [p])%list !! k = Some r ->
  Probe.deferred r = Pending -> k = length ps.
Proof.
  intros Hall Hk Er. apply lookup_app_Some in Hk as [Hk|[Hge Hk]].
  - unfold all_settled in Hall. rewrite Forall_lookup in Hall.
    specialize (Hall _ _ Hk). simpl in Hall. rewrite Er in Hall. done.
  - apply list_lookup_singleton_Some in Hk as [Hk _]. lia.
Qed.

Context `{!Util}.

Lemma Inv_doCheck s : Quiet s -> deferred s = Pending -> Inv (doCheck s).
Proof.
  intros HQ Hp. unfold doCheck.
  destruct (is_port (Probe.port_of (hp s) (read (hp s) (opts s) "port"))) eqn:Hport.
  - rewrite check_valid by done. unfold reaction; simpl.
    destruct HQ as (Hwf & Hall & Htm & Hset & Hto & Hdl).
    destruct s as [h o d tid to rid tm n ps tr]; simpl in *. subst d.
    split; simpl; try done.
    + apply Forall_app. split; [done|]. by repeat constructor.
    + intros id cb dl Hid. destruct (Htm _ _ _ Hid) as (? & -> & ?). done.
    + intros i j p q Hi Hj Ep Eq.
      rewrite (pending_snoc _ _ _ _ Hall Hi Ep), (pending_snoc _ _ _ _ Hall Hj Eq).
      done.
  - rewrite check_invalid by done. apply Inv_reaction.
    + destruct HQ as (Hwf & Hall & Htm & Hset & Hto & Hdl).
      destruct s as [h o d tid to rid tm n ps tr]; session_simpl.
      split; [|split; [|split; [|done]]].
      * apply Forall_app. split; [done|]. by repeat constructor.
      * apply Forall_app. split; [done|]. by repeat constructor.
      * intros id cb dl Hid. by destruct (Htm _ _ _ Hid) as (? & ? & ?).
    + destruct s; session_simpl. by intros [].
Qed.

Lemma Inv_timer_pending s id x :
  Inv s -> timers s !! id = Some x -> deferred s = Pending /\ timedOut s = false.
Proof.
  intros HI Hid.
  assert (Hp : deferred s = Pending).
  { destruct (deferred s) eqn:E; [done | |];
      (destruct (inv_settled s HI) as [Hem _]; [by rewrite E|];
       rewrite Hem in Hid; by rewrite lookup_empty in Hid). }
  split; [done|]. destruct (timedOut s) eqn:Hto; [|done].
  rewrite (inv_timedOut s HI Hto) in Hp. done.
Qed.

Lemma Inv_timeoutFunc s id d :
  Inv s -> timers s !! id = Some (timeoutFunc_cb, d) ->
  Inv (timeoutFunc (set_timers (delete id (timers s)) s)).
Proof.
  intros HI Hid. destruct (Inv_timer_pending _ _ _ HI Hid) as [Hp Hto].
  unfold timeoutFunc.
  set (s1 := set_timedOut true (set_timers (delete id (timers s)) s)).
  pose proof (cleanUp_frame s1) as (_ & _ & Ed & Et & Eto & Er & En & Ep).
  assert (Hclr : timers (cleanUp s1) = ∅).
  { apply cleanUp_clears. intros id' cb d'. subst s1. session_simpl.
    rewrite lookup_delete_Some. intros [_ Hid'].
    destruct (inv_timers s HI _ _ _ Hid') as [_ Hcb].
    destruct cb; [by left | right; tauto]. }
  remember (cleanUp s1) as s2. subst s1.
  destruct s as [h o dd tid to rid tm n ps tr], s2; session_simpl. subst.
  destruct HI. split; simpl in *; try done.
Qed.

Lemma Inv_retry_fires s id d :
  Inv s -> timers s !! id = Some (retry_cb, d) ->
  Inv (doCheck (set_timers (delete id (timers s)) s)).
Proof.
  intros HI Hid. destruct (Inv_timer_pending _ _ _ HI Hid) as [Hp Hto].
  destruct (inv_timers s HI _ _ _ Hid) as (_ & Hrid & Hall).
  apply Inv_doCheck; [|by destruct s].
  destruct s as [h o dd tid to rid tm n ps tr]; session_simpl. subst.
  destruct HI as [Hwf Htm Hone Hset Htimed Hdl]; simpl in *.
  split; [done|]. split; [done|]. split; [|split; [done|split; [done|]]].
  - intros id' cb d'. simpl. rewrite lookup_delete_Some. intros [Hne Hid'].
    destruct (Htm _ _ _ Hid') as [Hlt Hcb]. split; [done|].
    destruct cb; [done|]. destruct Hcb as [[= ->] _]. done.
  - intros _. simpl. destruct (Hdl eq_refl) as (t & dl & -> & Ht).
    exists t, dl. split; [done|]. apply lookup_delete_Some. split; [|done].
    intros <-. rewrite Hid in Ht. done.
Qed.

(** The session right after probe [i], which was pending, has settled. *)
Lemma Quiet_probe_settles s i p p' acts :
  Inv s -> probes s !! i = Some p -> Probe.deferred p = Pending ->
  probe_wf p' -> settled (Probe.deferred p') = true ->
  Quiet (log acts (set_probes (<[i := p']> (probes s)) s))
  /\ (deferred s <> Pending -> timedOut s = true).
Proof.
  intros [Hwf Htm Hone Hset Htimed Hdl] Hi Hp Hwf' Hs'.
  assert (Hnot : ~ all_settled (probes s)).
  { unfold all_settled. rewrite Forall_lookup. intros Hall.
    specialize (Hall _ _ Hi). simpl in Hall. rewrite Hp in Hall. done. }
  split.
  - destruct s as [h o dd tid to rid tm n ps tr]; session_simpl.
    split; [by apply Forall_insert|]. split; [|split; [|split; [|done]]].
    + unfold all_settled. rewrite Forall_lookup. intros j q Hj.
      apply list_lookup_insert_Some in Hj as [(-> & <- & _)|[Hne Hj]]; [done|].
      destruct (Probe.deferred q) eqn:Eq; [|done..].
      by specialize (Hone _ _ _ _ Hi Hj Hp Eq).
    + intros id cb d Hid. destruct (Htm _ _ _ Hid) as [Hlt Hcb].
      split; [done|]. destruct cb; [done|]. tauto.
    + intros Hd. by apply Hset.
  - intros Hd. destruct (timedOut s) eqn:E; [done|].
    destruct (Hset Hd) as [_ Hall]. tauto.
Qed.

Lemma Inv_step s e : Inv s -> Inv (step s e).
Proof.
  intros HI. destruct e as [id|i ev]; simpl.
  - destruct (timers s !! id) as [[[|] d]|] eqn:Hid; [| |done].
    + by eapply Inv_timeoutFunc.
    + by eapply Inv_retry_fires.
  - destruct (probes s !! i) as [p|] eqn:Hi; [|done].
    assert (Hwf : probe_wf p).
    { pose proof (inv_probes s HI) as H0. rewrite Forall_lookup in H0. eauto. }
    destruct (settled (Probe.deferred p)) eqn:Hs.
    + rewrite emit_settled by done. rewrite list_insert_id by done.
      destruct s, HI; split; session_simpl; done.
    + assert (Hp : Probe.deferred p = Pending) by (by destruct (Probe.deferred p)).
      destruct (emit_pending p ev Hwf Hp) as (d & a & -> & Ha & Hd & _).
      edestruct (Quiet_probe_settles s i p) as [HQ Hlive]; [done..| | |].
      3: { apply Inv_reaction; [exact HQ | exact Hlive]. }
      * unfold probe_wf. simpl. destruct d; [done| |]; by right.
      * simpl. by destruct d.
Qed.

Lemma Inv_run s evs : Inv s -> Inv (run s evs).
Proof.
  revert s. induction evs as [|e evs IH]; intros s HI; [done|].
  simpl. apply IH. by apply Inv_step.
Qed.

Lemma waitForStatus_eq h port host inUse retryTimeMs timeOutMs :
  waitForStatus h port host inUse retryTimeMs timeOutMs
  = let '(h0, o) := target h port host inUse retryTimeMs timeOutMs in
    if is_bool (read h0 o "inUse")
    then doCheck (armed (with_defaults h0 o) o)
    else refused h0 o.
Proof.
  unfold waitForStatus, target, with_defaults.
  destruct (if is_obj port then _ else _) as [h0 o].
  destruct (is_bool (read h0 o "inUse")); [|reflexivity]. simpl.
  destruct (is_positiveInt (read h0 o "retryTimeMs")); simpl;
    match goal with |- context [is_positiveInt ?v] => destruct (is_positiveInt v) end;
    reflexivity.
Qed.

Lemma Quiet_armed h o : Quiet (armed h o).
Proof.
  split; [constructor|]. split; [constructor|]. split; [|split; [done|split; [done|]]].
  - intros id cb d. simpl. rewrite lookup_singleton_Some.
    intros [<- [= <- <-]]. split; [lia|done].
  - intros _. exists 0, (read h o "timeOutMs"). split; [done|]. apply lookup_singleton_eq.
Qed.

Lemma Inv_refused h o : Inv (refused h o).
Proof.
  split; simpl; try done. intros _. split; [done|]. intros _. constructor.
Qed.

Lemma Inv_waitForStatus h port host inUse retryTimeMs timeOutMs :
  Inv (waitForStatus h port host inUse retryTimeMs timeOutMs).
Proof.
  rewrite waitForStatus_eq. destruct (target _ _ _ _ _ _) as [h0 o].
  destruct (is_bool _).
  - apply Inv_doCheck; [apply Quiet_armed | done].
  - apply Inv_refused.
Qed.

(** Every state a session can reach satisfies the invariant. *)
Lemma Inv_reachable h port host inUse retryTimeMs timeOutMs evs :
  Inv (run (waitForStatus h port host inUse retryTimeMs timeOutMs) evs).
Proof. apply Inv_run, Inv_waitForStatus. Qed.

Lemma reaction_frame p s : same_frame s (reaction p s).
Proof.
  unfold reaction, onFulfilled, onRejected.
  destruct (Probe.deferred p); [done | |];
    destruct (timedOut s); try done;
    [destruct (strict_eq _ _)|];
    try (match goal with |- same_frame _ (cleanUp ?x) =>
           destruct (cleanUp_frame x) as (? & ? & _) end);
    destruct s; split; session_simpl; congruence.
Qed.

Lemma doCheck_frame s : same_frame s (doCheck s).
Proof.
  unfold doCheck. destruct (Probe.check _ _ _) as [p acts].
  match goal with |- same_frame _ (reaction _ ?x) =>
    destruct (reaction_frame p x) as [E1 E2] end.
  destruct s; split; session_simpl; congruence.
Qed.

Lemma step_frame s e : same_frame s (step s e).
Proof.
  destruct e as [id|i ev]; simpl.
  - destruct (timers s !! id) as [[[|] d]|]; [| |done].
    + unfold timeoutFunc.
      match goal with |- context [cleanUp ?x] =>
        destruct (cleanUp_frame x) as (E1 & E2 & _) end.
      destruct s; split; session_simpl; congruence.
    + match goal with |- same_frame _ (doCheck ?x) =>
        destruct (doCheck_frame x) as [E1 E2] end.
      destruct s; split; session_simpl; congruence.
  - destruct (probes s !! i) as [p|]; [|done].
    destruct (Probe.emit p ev) as [p' acts].
    destruct (settled _); [by destruct s|].
    match goal with |- same_frame _ (reaction _ ?x) =>
      destruct (reaction_frame p' x) as [E1 E2] end.
    destruct s; split; session_simpl; congruence.
Qed.

Lemma run_frame s evs : same_frame s (run s evs).
Proof.
  revert s. induction evs as [|e evs IH]; intros s; [done|].
  simpl. destruct (IH (step s e)) as [E1 E2], (step_frame s e) as [E3 E4].
  split; congruence.
Qed.

(** The options every state of a session reads: what the caller gave, with
    the two defaults. *)
Lemma session_reads h port host inUse retryTimeMs timeOutMs evs :
  let o := given h port host inUse retryTimeMs timeOutMs in
  let s := run (waitForStatus h port host inUse retryTimeMs timeOutMs) evs in
  is_bool (get o "inUse") = true ->
  read (hp s) (opts s) "inUse" = get o "inUse" /\
  read (hp s) (opts s) "port" = get o "port" /\
  read (hp s) (opts s) "host" = get o "host" /\
  read (hp s) (opts s) "retryTimeMs" = or_default (get o "retryTimeMs") RETRY_TIME /\
  read (hp s) (opts s) "timeOutMs" = or_default (get o "timeOutMs") TIMEOUT.
Proof.
  intros o s Hb. subst s.
  destruct (run_frame (waitForStatus h port host inUse retryTimeMs timeOutMs) evs)
    as [-> ->].
  rewrite waitForStatus_eq.
  pose proof (target_spec h port host inUse retryTimeMs timeOutMs) as Ht.
  destruct (target _ _ _ _ _ _) as [h0 o']. destruct Ht as [Ho Hd].
  fold o in Hd.
  assert (Hrd : forall k, read h0 o' k = get o k) by (intros k; unfold read; by rewrite Hd).
  rewrite Hrd, Hb.
  destruct (doCheck_frame (armed (with_defaults h0 o') o')) as [-> ->]. simpl.
  rewrite !with_defaults_other by done.
  rewrite with_defaults_retry, with_defaults_timeout by done.
  rewrite !Hrd. done.
Qed.

End session_facts.

(** ** The claims about [check] *)

(** C3: a call of [check] with a valid port leaves its promise pending, and
    the first event of the socket decides it: [connect] fulfils it with
    [true], an error whose code is ECONNREFUSED fulfils it with [false], any
    other error rejects it with that error.  The events that follow have no
    effect, and the promise is settled by exactly one call. *)
Theorem check_one_outcome `{!Util} h port host ev evs :
  is_port (Probe.port_of h port) = true ->
  let p0 := (Probe.check h port host).1 in
  let r := Probe.emits p0 (ev :: evs) in
  Probe.deferred p0 = Pending /\
  match ev with
  | Probe.EvConnect => Probe.deferred r.1 = Fulfilled true
  | Probe.EvError err =>
      if decide (code err = VStr "ECONNREFUSED")
      then Probe.deferred r.1 = Fulfilled false
      else Probe.deferred r.1 = Rejected err
  end /\
  r = Probe.emit p0 ev /\
  length (List.filter Probe.settles r.2) = 1.
Proof.
  intros Hp. cbv zeta. rewrite check_valid by done. cbn [fst].
  set (p0 := Probe.Mk Pending true (Some Probe.fresh_socket)).
  split; [done|].
  destruct (emit_pending p0 ev) as (d & a & He & Ha & Hd & Hout); [done..|].
  assert (Hems : Probe.emits p0 (ev :: evs) = Probe.emit p0 ev).
  { cbn [Probe.emits]. rewrite He.
    erewrite emits_no_listener; [|reflexivity..]. by rewrite app_nil_r. }
  rewrite Hems, He. cbn [fst snd Probe.deferred List.filter]. rewrite Ha.
  split; [|split; reflexivity].
  destruct ev as [|err]; simpl in Hout; [by destruct Hout as [-> _]|].
  unfold strict_eq in Hout. case_decide.
  - rewrite bool_decide_eq_true_2 in Hout by done. by destruct Hout as [-> _].
  - rewrite bool_decide_eq_false_2 in Hout by done. by destruct Hout as [-> _].
Qed.

Lemma check_one_outcome_witness :
  Probe.deferred
    (Probe.emits (@Probe.check sample_inspect ∅ (VNum 44204) (VStr "127.0.0.1")).1
       [Probe.EvConnect; Probe.EvError (Error (VStr "ECONNRESET") "reset")]).1
  = Fulfilled true.
Proof.
  exact (proj1 (proj2 (@check_one_outcome sample_inspect ∅ (VNum 44204)
    (VStr "127.0.0.1") Probe.EvConnect
    [Probe.EvError (Error (VStr "ECONNRESET") "reset")] eq_refl))).
Defined.

(** X17: the teardown is on every path: whichever event comes first (connect,
    refused, any other error), the callback makes its one settling call and
    then does the whole teardown, in the order of [cleanUp]; the socket is
    left without listeners, ended, destroyed and unreferenced. *)
Theorem check_teardown_every_path `{!Util} h port host ev :
  is_port (Probe.port_of h port) = true ->
  let r := Probe.emit (Probe.check h port host).1 ev in
  exists a,
    r.2 = a :: Probe.teardown /\
    Probe.settles a = true /\
    settled (Probe.deferred r.1) = true /\
    Probe.client r.1 = Some Probe.torn_down.
Proof.
  intros Hp. cbv zeta. rewrite check_valid by done. cbn [fst].
  destruct (emit_pending (Probe.Mk Pending true (Some Probe.fresh_socket)) ev)
    as (d & a & He & Ha & Hd & _); [done..|].
  exists a. rewrite He. cbn [fst snd Probe.deferred Probe.client].
  repeat split; try done. by destruct d.
Qed.

Lemma check_teardown_every_path_witness :
  exists a,
    (Probe.emit (@Probe.check sample_inspect ∅ (VNum 80) VUndefined).1
       (Probe.EvError (Error (VStr "EHOSTUNREACH") "unreachable"))).2
    = a :: Probe.teardown.
Proof.
  destruct (@check_teardown_every_path sample_inspect ∅ (VNum 80) VUndefined
              (Probe.EvError (Error (VStr "EHOSTUNREACH") "unreachable")) eq_refl)
    as (a & Ha & _).
  exists a. exact Ha.
Defined.


(** ** The first step of a session *)

Lemma host_of_positional h port host :
  is_obj port = false -> Probe.host_of h port host = host.
Proof.
  intros Hn. unfold Probe.host_of, Probe.check_opts, Object_assign, get. simpl.
  rewrite Hn. unfold makeOptionsObj. rewrite lookup_union.
  rewrite lookup_insert_ne by done. by rewrite lookup_insert_eq.
Qed.

Lemma port_of_positional h port : is_obj port = false -> Probe.port_of h port = port.
Proof. intros Hn. unfold Probe.port_of. by rewrite Hn. Qed.

Lemma is_port_not_obj v : is_port v = true -> is_obj v = false.
Proof. by destruct v. Qed.

Section first_step.
Context `{!Util}.

Lemma doCheck_armed_invalid h o :
  let p := read h o "port" in
  let e := new_Error ("invalid port: " ++ inspect h (Probe.port_of h p)) in
  is_port (Probe.port_of h p) = false ->
  doCheck (armed h o)
  = Mk h o (Rejected e) (Some 0) false None ∅ 1 [Probe.Mk (Rejected e) true None]
      [SetTimeout 0 timeoutFunc_cb (read h o "timeOutMs");
       OfProbe 0 (Probe.Reject e); Reject e; ClearTimeout 0].
Proof.
  intros p e Hp. unfold doCheck. simpl hp. simpl opts. fold p.
  rewrite check_invalid by done. fold e.
  unfold reaction, onRejected, cleanUp, armed. session_cbn.
  by rewrite delete_singleton_eq.
Qed.

Lemma doCheck_armed_valid h o :
  let p := read h o "port" in
  is_port (Probe.port_of h p) = true ->
  doCheck (armed h o)
  = Mk h o Pending (Some 0) false None
      {[0 := (timeoutFunc_cb, read h o "timeOutMs")]} 1
      [Probe.Mk Pending true (Some Probe.fresh_socket)]
      [SetTimeout 0 timeoutFunc_cb (read h o "timeOutMs");
       OfProbe 0 Probe.NewSocket; OfProbe 0 (Probe.Once "connect");
       OfProbe 0 (Probe.Once "error");
       OfProbe 0 (Probe.Connect (Probe.port_of h p)
                    (Probe.host_of h p (read h o "host")))].
Proof.
  intros p Hp. unfold doCheck. simpl hp. simpl opts. fold p.
  rewrite check_valid by done. reflexivity.
Qed.

End first_step.

Section claims_on_options.
Context `{!Util}.

(** A call whose [inUse] is a boolean arms the deadline timer and calls
    [doCheck], on the options the caller gave with the two defaults. *)
Lemma waitForStatus_start h port host inUse retryTimeMs timeOutMs :
  let o := given h port host inUse retryTimeMs timeOutMs in
  is_bool (get o "inUse") = true ->
  exists h2 o',
    waitForStatus h port host inUse retryTimeMs timeOutMs = doCheck (armed h2 o') /\
    read h2 o' "inUse" = get o "inUse" /\
    read h2 o' "port" = get o "port" /\
    read h2 o' "host" = get o "host" /\
    read h2 o' "retryTimeMs" = or_default (get o "retryTimeMs") RETRY_TIME /\
    read h2 o' "timeOutMs" = or_default (get o "timeOutMs") TIMEOUT.
Proof.
  intros o Hb. rewrite waitForStatus_eq.
  pose proof (target_spec h port host inUse retryTimeMs timeOutMs) as Ht.
  destruct (target _ _ _ _ _ _) as [h0 o']. destruct Ht as [Ho Hd]. fold o in Hd.
  assert (Hrd : forall k, read h0 o' k = get o k) by (intros k; unfold read; by rewrite Hd).
  rewrite Hrd, Hb. exists (with_defaults h0 o'), o'.
  rewrite !with_defaults_other by done.
  rewrite with_defaults_retry, with_defaults_timeout by done.
  rewrite !Hrd. done.
Qed.

(** C5, as the code has it.  [check] rejects an invalid port with the
    error "invalid port: <the value>" without creating a socket or a timer.
    [waitForStatus], when [inUse] is a boolean and the port is not an
    object, gets that error from its first probe, which creates no socket:
    the deadline timer was armed before the probe, and it is cleared when
    the outer promise is rejected, so that no timer stays armed. *)
Theorem invalid_port_rejected h port host inUse retryTimeMs timeOutMs :
  (is_port (Probe.port_of h port) = false ->
   let e := new_Error ("invalid port: " ++ inspect h (Probe.port_of h port)) in
   Probe.check h port host = (Probe.Mk (Rejected e) true None, [Probe.Reject e]))
  /\
  (let o := given h port host inUse retryTimeMs timeOutMs in
   let p := get o "port" in
   is_bool (get o "inUse") = true -> is_obj p = false -> is_port p = false ->
   let s := waitForStatus h port host inUse retryTimeMs timeOutMs in
   let e := new_Error ("invalid port: " ++ inspect (hp s) p) in
   deferred s = Rejected e /\
   timers s = ∅ /\
   probes s = [Probe.Mk (Rejected e) true None] /\
   trace s = [SetTimeout 0 timeoutFunc_cb (or_default (get o "timeOutMs") TIMEOUT);
              OfProbe 0 (Probe.Reject e); Reject e; ClearTimeout 0]).
Proof.
  split.
  - intros Hp e. by apply check_invalid.
  - intros o p Hb Hobj Hp.
    destruct (waitForStatus_start h port host inUse retryTimeMs timeOutMs Hb)
      as (h2 & o' & -> & _ & Rp & _ & _ & Rt).
    fold o in Rp, Rt. fold p in Rp.
    rewrite doCheck_armed_invalid;
      rewrite Rp, port_of_positional by done; [|done].
    cbv zeta. simpl. rewrite Rt. done.
Qed.

End claims_on_options.

Lemma invalid_port_rejected_witness :
  let h : heap := {[0 := <["port" := VStr "hello"]> {["inUse" := VBool true]}]} in
  let s := @waitForStatus sample_inspect h (VObj 0)
             VUndefined VUndefined VUndefined VUndefined in
  (@Probe.check sample_inspect h (VStr "hello") VUndefined).1
  = Probe.Mk (Rejected (new_Error "invalid port: 'hello'")) true None
  /\ deferred s = Rejected (new_Error "invalid port: 'hello'").
Proof.
  pose proof (@invalid_port_rejected sample_inspect
    {[0 := <["port" := VStr "hello"]> {["inUse" := VBool true]}]}
    (VStr "hello") VUndefined VUndefined VUndefined VUndefined) as [Hc _].
  pose proof (@invalid_port_rejected sample_inspect
    {[0 := <["port" := VStr "hello"]> {["inUse" := VBool true]}]}
    (VObj 0) VUndefined VUndefined VUndefined VUndefined) as [_ Hw].
  split.
  - rewrite (Hc eq_refl). reflexivity.
  - exact (proj1 (Hw eq_refl eq_refl eq_refl)).
Defined.

(** C5 as stated fails for [waitForStatus]: the deadline timer is armed
    before the port is looked at, and an [inUse] that is not a boolean is
    reported instead of the invalid port. *)
Lemma invalid_port_counterexample :
  let h : heap := {[0 := <["port" := VStr "hello"]> {["inUse" := VBool true]};
                    1 := {["port" := VStr "hello"]}]} in
  let s := @waitForStatus sample_inspect h (VObj 0)
             VUndefined VUndefined VUndefined VUndefined in
  let s' := @waitForStatus sample_inspect h (VObj 1)
             VUndefined VUndefined VUndefined VUndefined in
  is_port (read h (VObj 0) "port") = false /\
  trace s = [SetTimeout 0 timeoutFunc_cb (VNum 2000);
             OfProbe 0 (Probe.Reject (new_Error "invalid port: 'hello'"));
             Reject (new_Error "invalid port: 'hello'"); ClearTimeout 0] /\
  is_port (read h (VObj 1) "port") = false /\
  deferred s' = Rejected (new_Error "inUse must be a boolean").
Proof. vm_compute. done. Qed.

Section claims_on_defaults.
Context `{!Util}.

Lemma reaction_trace p s : exists acts, trace (reaction p s) = (trace s ++ acts)%list.
Proof.
  unfold reaction, onFulfilled, onRejected, cleanUp.
  destruct s as [h o d [tid|] [|] [rid|] tm n ps tr];
    destruct (Probe.deferred p); session_cbn;
    repeat match goal with |- context [if ?b then _ else _] => destruct b end;
    session_cbn; rewrite <- ?app_assoc;
    try (by eexists); by (exists []; rewrite app_nil_r).
Qed.

Lemma doCheck_trace s : exists acts, trace (doCheck s) = (trace s ++ acts)%list.
Proof.
  unfold doCheck. destruct (Probe.check _ _ _) as [p acts].
  match goal with |- context [reaction p ?x] =>
    destruct (reaction_trace p x) as [a ->] end.
  destruct s; session_cbn. rewrite <- app_assoc. by eexists.
Qed.

Lemma refused_run h o evs : run (refused h o) evs = refused h o.
Proof. induction evs as [|[id|i ev] evs IH]; [done| |]; simpl; exact IH. Qed.

(** C7: when [inUse] is not a boolean the call is rejected with
    "inUse must be a boolean" and no timer was started.  When it is a
    boolean, the session works with [retryTimeMs] as given if it is a
    positive integer and with 250 otherwise (also when it is absent), and
    with [timeOutMs] as given if it is a positive integer and with 2000
    otherwise, each on its own; the deadline timer is armed with that
    [timeOutMs]. *)
Theorem waitForStatus_options h port host inUse retryTimeMs timeOutMs evs :
  let o := given h port host inUse retryTimeMs timeOutMs in
  let s0 := waitForStatus h port host inUse retryTimeMs timeOutMs in
  let s := run s0 evs in
  if is_bool (get o "inUse") then
    read (hp s) (opts s) "retryTimeMs"
    = (if is_positiveInt (get o "retryTimeMs") then get o "retryTimeMs" else VNum 250) /\
    read (hp s) (opts s) "timeOutMs"
    = (if is_positiveInt (get o "timeOutMs") then get o "timeOutMs" else VNum 2000) /\
    (o !! "retryTimeMs" = None -> read (hp s) (opts s) "retryTimeMs" = VNum 250) /\
    (o !! "timeOutMs" = None -> read (hp s) (opts s) "timeOutMs" = VNum 2000) /\
    head (trace s0) = Some (SetTimeout 0 timeoutFunc_cb (read (hp s) (opts s) "timeOutMs"))
  else
    deferred s0 = Rejected (new_Error "inUse must be a boolean") /\
    trace s0 = [Reject (new_Error "inUse must be a boolean")] /\
    timers s0 = ∅ /\ probes s0 = [] /\ s = s0.
Proof.
  intros o s0 s. destruct (is_bool (get o "inUse")) eqn:Hb.
  - destruct (session_reads h port host inUse retryTimeMs timeOutMs evs Hb)
      as (_ & _ & _ & Rr & Rt).
    fold o s0 s in Rr, Rt. rewrite Rr, Rt.
    split; [done|]. split; [done|].
    split; [|split].
    + intros Hn. unfold get. by rewrite Hn.
    + intros Hn. unfold get. by rewrite Hn.
    + subst s0.
      destruct (waitForStatus_start h port host inUse retryTimeMs timeOutMs Hb)
        as (h2 & o' & -> & _ & _ & _ & _ & Rt').
      destruct (doCheck_trace (armed h2 o')) as [acts ->]. simpl.
      by rewrite Rt'.
  - subst s s0. rewrite waitForStatus_eq.
    pose proof (target_spec h port host inUse retryTimeMs timeOutMs) as Ht.
    destruct (target _ _ _ _ _ _) as [h0 o']. destruct Ht as [Ho Hd]. fold o in Hd.
    unfold read. rewrite Hd, Hb. rewrite refused_run. done.
Qed.

End claims_on_defaults.

Lemma waitForStatus_options_witness :
  let h : heap := {[0 := <["port" := VNum 44205]> (<["inUse" := VBool true]>
                           {["retryTimeMs" := VNum 500]})]} in
  let s := @waitForStatus sample_inspect h (VObj 0)
             VUndefined VUndefined VUndefined VUndefined in
  read (hp s) (opts s) "retryTimeMs" = VNum 500 /\
  read (hp s) (opts s) "timeOutMs" = VNum 2000.
Proof.
  pose proof (@waitForStatus_options sample_inspect
    {[0 := <["port" := VNum 44205]> (<["inUse" := VBool true]>
             {["retryTimeMs" := VNum 500]})]}
    (VObj 0) VUndefined VUndefined VUndefined VUndefined []) as Hw.
  cbv zeta in Hw.
  change (is_bool _) with true in Hw. cbv iota in Hw.
  destruct Hw as (Hr & _ & _ & Ht & _).
  split; [exact Hr | exact (Ht eq_refl)].
Defined.

(** ** After the outer promise has settled *)

Section settled_facts.
Context `{!Util}.

(** A session that has settled only records what its probes still do. *)
Lemma settled_step s e :
  Inv s -> deferred s <> Pending ->
  exists ps acts,
    step s e = log acts (set_probes ps s) /\
    length ps = length (probes s) /\ forallb of_probe acts = true.
Proof.
  intros HI Hd. destruct (inv_settled s HI Hd) as [Hem Hall].
  assert (Hid : s = log [] (set_probes (probes s) s)).
  { destruct s; session_cbn. by rewrite app_nil_r. }
  destruct e as [id|i ev]; simpl.
  - rewrite Hem, lookup_empty. by exists (probes s), [].
  - destruct (probes s !! i) as [p|] eqn:Hi; [|by exists (probes s), []].
    destruct (Probe.emit p ev) as [p' acts] eqn:He.
    exists (<[i := p']> (probes s)), (OfProbe i <$> acts).
    split; [|split; [by rewrite length_insert|]].
    + destruct (settled (Probe.deferred p)) eqn:Hs; [done|].
      destruct (timedOut s) eqn:Hto.
      * unfold reaction, onFulfilled, onRejected.
        destruct s; session_cbn. subst. by destruct (Probe.deferred p').
      * specialize (Hall eq_refl). unfold all_settled in Hall.
        rewrite Forall_lookup in Hall. specialize (Hall _ _ Hi). simpl in Hall.
        congruence.
    + clear. by induction acts.
Qed.

Lemma settled_run s evs :
  Inv s -> deferred s <> Pending ->
  exists ps acts,
    run s evs = log acts (set_probes ps s) /\
    length ps = length (probes s) /\ forallb of_probe acts = true.
Proof.
  revert s. induction evs as [|e evs IH]; intros s HI Hd.
  - exists (probes s), []. split; [|done]. destruct s; session_cbn.
    by rewrite app_nil_r.
  - simpl. destruct (settled_step s e HI Hd) as (ps & acts & Es & Hl & Ha).
    destruct (IH (step s e)) as (ps' & acts' & Er & Hl' & Ha').
    { by apply Inv_step. }
    { rewrite Es. by destruct s. }
    exists ps', (acts ++ acts')%list. rewrite Er, Es.
    split; [|split].
    + destruct s; session_cbn. by rewrite app_assoc.
    + rewrite Hl', Es. by destruct s.
    + rewrite forallb_app. by rewrite Ha, Ha'.
Qed.

End settled_facts.

Lemma cleanUp_trace s :
  trace (cleanUp s)
  = (trace s ++ (ClearTimeout <$> (option_list (timeoutId s) ++ option_list (retryId s))))%list.
Proof.
  unfold cleanUp. destruct s as [? ? ? [t|] ? [r|] ? ? ? tr]; session_cbn;
    rewrite <- ?app_assoc, ?app_nil_r; done.
Qed.

Section claims_on_timeout.
Context `{!Util}.

(** As long as the outer promise is pending, the deadline timer is armed. *)
Lemma deadline_armed_while_pending h port host inUse retryTimeMs timeOutMs evs :
  let s := run (waitForStatus h port host inUse retryTimeMs timeOutMs) evs in
  deferred s = Pending ->
  exists id d, timeoutId s = Some id /\ timers s !! id = Some (timeoutFunc_cb, d).
Proof. intros s. apply inv_deadline, Inv_reachable. Qed.

(** C2: in any state a session can reach, when the deadline timer fires the
    outer promise is still pending; the session is marked timed out, the
    deadline timer and the retry timer are cleared and no timer stays
    armed, and the promise is rejected with the error "timeout".  Whatever
    happens afterwards, the promise stays rejected with that error, no
    timer is armed, no probe is issued, and the trace only grows by what
    the probes in flight do to their own sockets and promises. *)
Theorem deadline_fires h port host inUse retryTimeMs timeOutMs evs id d evs' :
  let s := run (waitForStatus h port host inUse retryTimeMs timeOutMs) evs in
  timers s !! id = Some (timeoutFunc_cb, d) ->
  let s' := step s (TimerFires id) in
  let s'' := run s' evs' in
  deferred s = Pending /\
  timedOut s' = true /\
  timers s' = ∅ /\
  deferred s' = Rejected (new_Error "timeout") /\
  trace s' = (trace s ++ ClearTimeout id :: (ClearTimeout <$> option_list (retryId s))
                      ++ [Reject (new_Error "timeout")])%list /\
  deferred s'' = Rejected (new_Error "timeout") /\
  timers s'' = ∅ /\
  timedOut s'' = true /\
  length (probes s'') = length (probes s') /\
  exists acts, trace s'' = (trace s' ++ acts)%list /\ forallb of_probe acts = true.
Proof.
  intros s Hid s' s''.
  assert (HI : Inv s) by apply Inv_reachable.
  assert (HI' : Inv s') by (by apply Inv_step).
  destruct (Inv_timer_pending _ _ _ HI Hid) as [Hp Hto].
  destruct (inv_timers s HI _ _ _ Hid) as [_ Htid]. simpl in Htid.
  assert (Es' : s' = timeoutFunc (set_timers (delete id (timers s)) s)).
  { subst s'. simpl. by rewrite Hid. }
  assert (Hd' : deferred s' = Rejected (new_Error "timeout")).
  { rewrite Es'. unfold timeoutFunc.
    match goal with |- context [cleanUp ?x] =>
      destruct (cleanUp_frame x) as (_ & _ & Ed & _) end.
    session_cbn. rewrite Ed. destruct s; session_cbn. by subst. }
  assert (Hto' : timedOut s' = true).
  { rewrite Es'. unfold timeoutFunc.
    match goal with |- context [cleanUp ?x] =>
      destruct (cleanUp_frame x) as (_ & _ & _ & _ & Eto & _) end.
    session_cbn. rewrite Eto. by destruct s. }
  assert (Htr : trace s' = (trace s ++ ClearTimeout id
            :: (ClearTimeout <$> option_list (retryId s))
            ++ [Reject (new_Error "timeout")])%list).
  { rewrite Es'. unfold timeoutFunc. unfold log at 1. cbn [trace].
    unfold set_deferred at 1. cbn [trace].
    rewrite cleanUp_trace. destruct s; session_cbn. subst.
    rewrite <- !app_assoc. done. }
  destruct (inv_settled s' HI') as [Hem _]; [by rewrite Hd'|].
  destruct (settled_run s' evs' HI') as (ps & acts & Er & Hl & Ha); [by rewrite Hd'|].
  fold s'' in Er.
  repeat split; try done.
  - rewrite Er. by destruct s'.
  - rewrite Er. destruct s'; session_cbn. done.
  - rewrite Er. by destruct s'.
  - rewrite Er. by destruct s'.
  - exists acts. split; [|done]. rewrite Er. by destruct s'.
Qed.

End claims_on_timeout.

Lemma deadline_fires_witness :
  let h : heap := {[0 := <["port" := VNum 44205]> {["inUse" := VBool true]}]} in
  let refusal := Error (VStr "ECONNREFUSED") "connect ECONNREFUSED" in
  let s' := run (H := sample_inspect)
              (@waitForStatus sample_inspect h (VObj 0)
                 VUndefined VUndefined VUndefined VUndefined)
              [SocketEmits 0 (Probe.EvError refusal); TimerFires 1; TimerFires 0] in
  deferred s' = Rejected (new_Error "timeout") /\
  deferred (step (H := sample_inspect) s' (SocketEmits 1 Probe.EvConnect))
  = Rejected (new_Error "timeout").
Proof.
  pose proof (@deadline_fires sample_inspect
    {[0 := <["port" := VNum 44205]> {["inUse" := VBool true]}]}
    (VObj 0) VUndefined VUndefined VUndefined VUndefined
    [SocketEmits 0 (Probe.EvError (Error (VStr "ECONNREFUSED") "connect ECONNREFUSED"));
     TimerFires 1]
    0 (VNum 2000) [SocketEmits 1 Probe.EvConnect] eq_refl) as Hw.
  cbv zeta in Hw. destruct Hw as (_ & _ & _ & H1 & _ & H2 & _).
  split; [exact H1 | exact H2].
Defined.

Section claims_on_polling.
Context `{!Util}.

(** The step in which the promise of a pending probe settles. *)
Lemma step_probe_settles s i p ev :
  probes s !! i = Some p -> Probe.deferred p = Pending ->
  step s (SocketEmits i ev)
  = reaction (Probe.emit p ev).1
      (log (OfProbe i <$> (Probe.emit p ev).2)
         (set_probes (<[i := (Probe.emit p ev).1]> (probes s)) s)).
Proof.
  intros Hi Hp. simpl. rewrite Hi. destruct (Probe.emit p ev) as [p' acts].
  by rewrite Hp.
Qed.

(** While a probe is pending and the session has not timed out, the outer
    promise is pending and no retry timer is armed. *)
Lemma pending_probe_live s i p :
  Inv s -> probes s !! i = Some p -> Probe.deferred p = Pending ->
  timedOut s = false ->
  deferred s = Pending /\
  (forall id d, timers s !! id <> Some (retry_cb, d)) /\
  exists id, timeoutId s = Some id.
Proof.
  intros HI Hi Hp Hto.
  assert (Hnot : ~ all_settled (probes s)).
  { unfold all_settled. rewrite Forall_lookup. intros Hall.
    specialize (Hall _ _ Hi). simpl in Hall. rewrite Hp in Hall. done. }
  assert (Hd : deferred s = Pending).
  { destruct (deferred s) eqn:E; [done | |];
      (destruct (inv_settled s HI) as [_ Hall]; [by rewrite E|]; tauto). }
  split; [done|]. split.
  - intros id d Hid. destruct (inv_timers s HI _ _ _ Hid) as [_ [_ Hall]]. done.
  - destruct (inv_deadline s HI Hd) as (id & _ & ? & _). by exists id.
Qed.

(** C4: in any state a session can reach, when a pending probe fails with
    an error that is not ECONNREFUSED and the session has not timed out,
    the outer promise is rejected with that very error and no timer stays
    armed.  Whatever happens afterwards, the promise stays rejected with
    that error, no timer is armed and no probe is issued again. *)
Theorem probe_error_ends_session
    h port host inUse retryTimeMs timeOutMs evs i p err evs' :
  let s := run (waitForStatus h port host inUse retryTimeMs timeOutMs) evs in
  probes s !! i = Some p -> Probe.deferred p = Pending ->
  timedOut s = false -> code err <> VStr "ECONNREFUSED" ->
  let s' := step s (SocketEmits i (Probe.EvError err)) in
  let s'' := run s' evs' in
  deferred s' = Rejected err /\
  timers s' = ∅ /\
  trace s' = (trace s ++ (OfProbe i <$> Probe.Reject err :: Probe.teardown)
                ++ Reject err
                   :: (ClearTimeout <$> (option_list (timeoutId s) ++ option_list (retryId s))))%list /\
  deferred s'' = Rejected err /\
  timers s'' = ∅ /\
  length (probes s'') = length (probes s').
Proof.
  intros s Hi Hp Hto Hc s' s''.
  assert (HI : Inv s) by apply Inv_reachable.
  assert (HI' : Inv s') by (by apply Inv_step).
  destruct (pending_probe_live s i p HI Hi Hp Hto) as (Hd & _ & _).
  assert (Hwf : probe_wf p).
  { pose proof (inv_probes s HI) as H0. rewrite Forall_lookup in H0. eauto. }
  assert (Es' : s' = cleanUp (log [Reject err] (set_deferred (Rejected err)
            (log (OfProbe i <$> Probe.Reject err :: Probe.teardown)
               (set_probes (<[i := Probe.Mk (Rejected err) (Probe.inUse p)
                                     (Some Probe.torn_down)]> (probes s)) s))))).
  { subst s'. rewrite (step_probe_settles s i p) by done.
    unfold probe_wf in Hwf. rewrite Hp in Hwf.
    destruct p as [dp b c]; simpl in Hp, Hwf. subst dp c.
    rewrite emit_error_fresh by done. cbn [fst snd].
    unfold reaction, onRejected. cbn [Probe.deferred].
    destruct s; session_cbn. by subst. }
  assert (Hd' : deferred s' = Rejected err).
  { rewrite Es'.
    match goal with |- context [cleanUp ?x] =>
      destruct (cleanUp_frame x) as (_ & _ & Ed & _) end.
    by rewrite Ed. }
  destruct (inv_settled s' HI') as [Hem _]; [by rewrite Hd'|].
  destruct (settled_run s' evs' HI') as (ps & acts & Er & Hl & Ha); [by rewrite Hd'|].
  fold s'' in Er.
  repeat split; try done.
  - rewrite Es', cleanUp_trace. destruct s; session_cbn.
    rewrite <- !app_assoc. done.
  - rewrite Er. by destruct s'.
  - rewrite Er. destruct s'; session_cbn. done.
  - rewrite Er. by destruct s'.
Qed.

End claims_on_polling.

Lemma probe_error_ends_session_witness :
  let h : heap := {[0 := <["port" := VNum 44205]> {["inUse" := VBool true]}]} in
  let unreachable := Error (VStr "EHOSTUNREACH") "connect EHOSTUNREACH" in
  let s' := run (H := sample_inspect)
              (@waitForStatus sample_inspect h (VObj 0)
                 VUndefined VUndefined VUndefined VUndefined)
              [SocketEmits 0 (Probe.EvError unreachable)] in
  deferred s' = Rejected unreachable /\ timers s' = ∅.
Proof.
  pose proof (@probe_error_ends_session sample_inspect
    {[0 := <["port" := VNum 44205]> {["inUse" := VBool true]}]}
    (VObj 0) VUndefined VUndefined VUndefined VUndefined [] 0
    (Probe.Mk Pending true (Some Probe.fresh_socket))
    (Error (VStr "EHOSTUNREACH") "connect EHOSTUNREACH") []
    eq_refl eq_refl eq_refl ltac:(discriminate)) as Hw.
  cbv zeta in Hw. destruct Hw as (H1 & H2 & _).
  split; [exact H1 | exact H2].
Defined.

Section claims_on_retry.
Context `{!Util}.

Lemma reaction_probes p s : probes (reaction p s) = probes s.
Proof.
  unfold reaction, onFulfilled, onRejected.
  destruct (Probe.deferred p); [done | |];
    destruct (timedOut s); try done;
    [destruct (strict_eq _ _)|];
    try (match goal with |- probes (cleanUp ?x) = _ =>
           destruct (cleanUp_frame x) as (_ & _ & _ & _ & _ & _ & _ & ->) end);
    by destruct s.
Qed.

Lemma doCheck_probes s : length (probes (doCheck s)) = S (length (probes s)).
Proof.
  unfold doCheck. destruct (Probe.check _ _ _) as [p acts].
  rewrite reaction_probes. destruct s; session_cbn.
  rewrite length_app. simpl. lia.
Qed.

(** C1: a call with a boolean [inUse] and a valid port arms the deadline
    timer and at once issues the first probe, no retry timer being armed.
    In any state the session can reach, when a pending probe is fulfilled
    and the session has not timed out: if the boolean is the desired one,
    the outer promise is fulfilled with no value, the deadline timer and
    the retry timer are cleared and no timer stays armed; otherwise no
    retry timer was armed, one is armed with the delay [retryTimeMs], and
    it issues the next probe when it fires.  At most one retry timer is
    armed at any time. *)
Theorem polling_loop h port host inUse retryTimeMs timeOutMs evs i p ev used :
  let o := given h port host inUse retryTimeMs timeOutMs in
  is_bool (get o "inUse") = true ->
  is_port (get o "port") = true ->
  let s0 := waitForStatus h port host inUse retryTimeMs timeOutMs in
  let s := run s0 evs in
  (trace s0 = [SetTimeout 0 timeoutFunc_cb (or_default (get o "timeOutMs") TIMEOUT);
               OfProbe 0 Probe.NewSocket; OfProbe 0 (Probe.Once "connect");
               OfProbe 0 (Probe.Once "error");
               OfProbe 0 (Probe.Connect (get o "port") (get o "host"))] /\
   timers s0 = {[0 := (timeoutFunc_cb, or_default (get o "timeOutMs") TIMEOUT)]} /\
   probes s0 = [Probe.Mk Pending true (Some Probe.fresh_socket)]) /\
  (probes s !! i = Some p -> Probe.deferred p = Pending -> timedOut s = false ->
   Probe.deferred (Probe.emit p ev).1 = Fulfilled used ->
   let s' := step s (SocketEmits i ev) in
   let R := or_default (get o "retryTimeMs") RETRY_TIME in
   if decide (VBool used = get o "inUse") then
     deferred s' = Fulfilled tt /\
     timers s' = ∅ /\
     is_Some (timeoutId s) /\
     trace s' = (trace s ++ (OfProbe i <$> (Probe.emit p ev).2)
                   ++ Resolve :: (ClearTimeout <$>
                        (option_list (timeoutId s) ++ option_list (retryId s))))%list
   else
     deferred s' = Pending /\
     (forall id d, timers s !! id <> Some (retry_cb, d)) /\
     timers s !! next_id s = None /\
     timers s' = <[next_id s := (retry_cb, R)]> (timers s) /\
     trace s' = (trace s ++ (OfProbe i <$> (Probe.emit p ev).2)
                   ++ [SetTimeout (next_id s) retry_cb R])%list /\
     length (probes (step s' (TimerFires (next_id s)))) = S (length (probes s'))) /\
  (forall id1 id2 d1 d2,
     timers s !! id1 = Some (retry_cb, d1) -> timers s !! id2 = Some (retry_cb, d2) ->
     id1 = id2).
Proof.
  intros o Hb Hport s0 s.
  assert (HI : Inv s) by apply Inv_reachable.
  split; [|split].
  - subst s0.
    destruct (waitForStatus_start h port host inUse retryTimeMs timeOutMs Hb)
      as (h2 & o' & -> & _ & Rp & Rh & _ & Rt). fold o in Rp, Rh, Rt.
    rewrite doCheck_armed_valid;
      rewrite Rp, port_of_positional by (by apply is_port_not_obj); [|done].
    rewrite host_of_positional by (by apply is_port_not_obj).
    simpl. rewrite Rt, Rh. done.
  - intros Hi Hp Hto Hused s' R.
    destruct (pending_probe_live s i p HI Hi Hp Hto) as (Hd & Hnoretry & Htid).
    destruct (session_reads h port host inUse retryTimeMs timeOutMs evs Hb)
      as (Ru & _ & _ & Rr & _). fold o s0 s in Ru, Rr.
    assert (Es' : s' = onFulfilled used
              (log (OfProbe i <$> (Probe.emit p ev).2)
                 (set_probes (<[i := (Probe.emit p ev).1]> (probes s)) s))).
    { subst s'. rewrite (step_probe_settles s i p) by done.
      unfold reaction. by rewrite Hused. }
    unfold onFulfilled in Es'.
    replace (timedOut _) with false in Es' by (by destruct s).
    replace (read _ _ "inUse") with (get o "inUse") in Es'
      by (rewrite <- Ru; by destruct s).
    unfold strict_eq in Es'. case_decide as Heq.
    + rewrite bool_decide_eq_true_2 in Es' by done.
      assert (HI' : Inv s') by (by apply Inv_step).
      assert (Hd' : deferred s' = Fulfilled tt).
      { rewrite Es'.
        match goal with |- context [cleanUp ?x] =>
          destruct (cleanUp_frame x) as (_ & _ & Ed & _) end.
        rewrite Ed. destruct s; session_cbn. by subst. }
      destruct (inv_settled s' HI') as [Hem _]; [by rewrite Hd'|].
      repeat split; try done.
      rewrite Es', cleanUp_trace. destruct s; session_cbn.
      rewrite <- !app_assoc. done.
    + rewrite bool_decide_eq_false_2 in Es' by done.
      replace (read _ _ "retryTimeMs") with R in Es'
        by (subst R; rewrite <- Rr; by destruct s).
      assert (Hfresh : timers s !! next_id s = None).
      { destruct (timers s !! next_id s) as [[cb d]|] eqn:E; [|done].
        destruct (inv_timers s HI _ _ _ E). lia. }
      assert (Htm' : timers s' = <[next_id s := (retry_cb, R)]> (timers s)).
      { rewrite Es'. by destruct s. }
      repeat split; try done.
      * rewrite Es'. destruct s; session_cbn. by subst.
      * rewrite Es'. destruct s; session_cbn. by rewrite <- app_assoc.
      * simpl. rewrite Htm', lookup_insert_eq. rewrite doCheck_probes.
        unfold set_timers. by cbn [probes].
  - intros id1 id2 d1 d2 H1 H2.
    destruct (inv_timers s HI _ _ _ H1) as [_ [E1 _]].
    destruct (inv_timers s HI _ _ _ H2) as [_ [E2 _]].
    congruence.
Qed.

End claims_on_retry.

Lemma polling_loop_witness :
  let h : heap := {[0 := <["port" := VNum 44205]> {["inUse" := VBool true]}]} in
  let refusal := Error (VStr "ECONNREFUSED") "connect ECONNREFUSED" in
  let s0 := @waitForStatus sample_inspect h (VObj 0)
              VUndefined VUndefined VUndefined VUndefined in
  let s' := step (H := sample_inspect) s0 (SocketEmits 0 (Probe.EvError refusal)) in
  timers s0 = {[0 := (timeoutFunc_cb, VNum 2000)]} /\
  timers s' = <[1 := (retry_cb, VNum 250)]> (timers s0).
Proof.
  pose proof (@polling_loop sample_inspect
    {[0 := <["port" := VNum 44205]> {["inUse" := VBool true]}]}
    (VObj 0) VUndefined VUndefined VUndefined VUndefined [] 0
    (Probe.Mk Pending true (Some Probe.fresh_socket))
    (Probe.EvError (Error (VStr "ECONNREFUSED") "connect ECONNREFUSED")) false
    eq_refl eq_refl) as Hw.
  cbv zeta in Hw. destruct Hw as ((_ & H0 & _) & Hstep & _).
  specialize (Hstep eq_refl eq_refl eq_refl eq_refl).
  split; [exact H0|]. exact (proj1 (proj2 (proj2 (proj2 Hstep)))).
Defined.

(** ** The wrappers *)

Lemma assign_copy (o : object) k v :
  Object_assign ∅ [o; {[k := v]}] = <[k := v]> o.
Proof.
  unfold Object_assign. simpl. rewrite (right_id_L ∅ (∪)).
  by rewrite insert_union_singleton_l.
Qed.

Lemma assign_copy2 (o : object) k1 v1 k2 v2 :
  Object_assign ∅ [o; <[k1 := v1]> {[k2 := v2]}] = <[k1 := v1]> (<[k2 := v2]> o).
Proof.
  unfold Object_assign. simpl. rewrite (right_id_L ∅ (∪)).
  rewrite <- insert_union_l. by rewrite <- insert_union_singleton_l.
Qed.

(** A call with positional arguments is the call on the object made of
    them. *)
Lemma waitForStatus_positional `{!Util} h port host inUse retryTimeMs timeOutMs :
  is_obj port = false ->
  waitForStatus h port host inUse retryTimeMs timeOutMs
  = let '(h1, o) := alloc h (makeOptionsObj port host inUse retryTimeMs timeOutMs) in
    waitForStatus h1 o VUndefined VUndefined VUndefined VUndefined.
Proof.
  intros Hn. unfold alloc. rewrite !waitForStatus_eq. unfold target, alloc.
  rewrite Hn. reflexivity.
Qed.

Section claims_on_wrappers.
Context `{!Util}.

(** C10: [waitUntilFreeOnHost] and [waitUntilUsedOnHost] are exported.  On
    an options object, [waitUntilFreeOnHost] is [waitForStatus] on a copy of
    it with [inUse] set to [false], and [waitUntilUsedOnHost] is
    [waitForStatus] on the object itself with [inUse] set to [true]; with
    positional arguments they are [waitForStatus] with [false] and [true].
    Their sessions read the host the caller gave, while the sessions of
    [waitUntilFree] and [waitUntilUsed] always read host ["127.0.0.1"]. *)
Theorem on_host_wrappers h port host retryTimeMs timeOutMs evs :
  In "waitUntilFreeOnHost" exports /\ In "waitUntilUsedOnHost" exports /\
  waitUntilFreeOnHost h port host retryTimeMs timeOutMs
  = (if is_obj port
     then let '(h1, o) := alloc h (<["inUse" := VBool false]> (deref h port)) in
          waitForStatus h1 o VUndefined VUndefined VUndefined VUndefined
     else waitForStatus h port host (VBool false) retryTimeMs timeOutMs) /\
  waitUntilUsedOnHost h port host retryTimeMs timeOutMs
  = (if is_obj port
     then waitForStatus (write h port "inUse" (VBool true)) port
            VUndefined VUndefined VUndefined VUndefined
     else waitForStatus h port host (VBool true) retryTimeMs timeOutMs) /\
  (let given_host := if is_obj port then read h port "host" else host in
   let sf := run (waitUntilFreeOnHost h port host retryTimeMs timeOutMs) evs in
   let su := run (waitUntilUsedOnHost h port host retryTimeMs timeOutMs) evs in
   read (hp sf) (opts sf) "host" = given_host /\
   read (hp su) (opts su) "host" = given_host /\
   read (hp sf) (opts sf) "inUse" = VBool false /\
   read (hp su) (opts su) "inUse" = VBool true) /\
  (let sf := run (waitUntilFree h port retryTimeMs timeOutMs) evs in
   let su := run (waitUntilUsed h port retryTimeMs timeOutMs) evs in
   read (hp sf) (opts sf) "host" = VStr "127.0.0.1" /\
   read (hp su) (opts su) "host" = VStr "127.0.0.1").
Proof.
  split; [simpl; tauto|]. split; [simpl; tauto|].
  assert (EF : waitUntilFreeOnHost h port host retryTimeMs timeOutMs
    = (if is_obj port
       then let '(h1, o) := alloc h (<["inUse" := VBool false]> (deref h port)) in
            waitForStatus h1 o VUndefined VUndefined VUndefined VUndefined
       else waitForStatus h port host (VBool false) retryTimeMs timeOutMs)).
  { unfold waitUntilFreeOnHost. destruct (is_obj port) eqn:Ho.
    - by rewrite assign_copy.
    - by rewrite waitForStatus_positional. }
  assert (EU : waitUntilUsedOnHost h port host retryTimeMs timeOutMs
    = (if is_obj port
       then waitForStatus (write h port "inUse" (VBool true)) port
              VUndefined VUndefined VUndefined VUndefined
       else waitForStatus h port host (VBool true) retryTimeMs timeOutMs)).
  { unfold waitUntilUsedOnHost. destruct (is_obj port) eqn:Ho; [done|].
    by rewrite waitForStatus_positional. }
  split; [exact EF|]. split; [exact EU|]. split.
  - cbv zeta. rewrite EF, EU. destruct (is_obj port) eqn:Ho.
    + unfold alloc.
      match goal with |- context [run (waitForStatus ?a ?b ?c ?d ?e ?f) evs] =>
        destruct (session_reads a b c d e f evs) as (Ru1 & _ & Rh1 & _) end.
      { unfold given. simpl. unfold get.
        by rewrite lookup_insert_eq; simpl; rewrite lookup_insert_eq. }
      match goal with |- context [run (waitForStatus (write ?a ?g ?k ?x) ?b ?c ?d ?e ?f) evs] =>
        destruct (session_reads (write a g k x) b c d e f evs) as (Ru2 & _ & Rh2 & _) end.
      { unfold given. rewrite Ho, deref_write by done. unfold get.
        by rewrite lookup_insert_eq. }
      rewrite Rh1, Rh2, Ru1, Ru2. unfold given. rewrite Ho. simpl.
      rewrite lookup_insert_eq. simpl. rewrite deref_write by done.
      unfold get, read, get. rewrite !lookup_insert_ne by done.
      rewrite !lookup_insert_eq. done.
    + destruct (session_reads h port host (VBool false) retryTimeMs timeOutMs evs)
        as (Ru1 & _ & Rh1 & _).
      { unfold given. by rewrite Ho. }
      destruct (session_reads h port host (VBool true) retryTimeMs timeOutMs evs)
        as (Ru2 & _ & Rh2 & _).
      { unfold given. by rewrite Ho. }
      rewrite Rh1, Rh2, Ru1, Ru2. unfold given. by rewrite Ho.
  - cbv zeta. unfold waitUntilFree, waitUntilUsed. rewrite !assign_copy2.
    unfold alloc.
    assert (EU' : forall h1 o,
      waitUntilUsedOnHost h1 (VObj o) VUndefined VUndefined VUndefined
      = waitForStatus (write h1 (VObj o) "inUse" (VBool true)) (VObj o)
          VUndefined VUndefined VUndefined VUndefined) by done.
    destruct (is_obj port) eqn:Ho; rewrite EU';
      repeat match goal with
      |- context [run (waitForStatus ?a ?b ?c ?d ?e ?f) ?l] =>
        let R := fresh "R" in
        destruct (session_reads a b c d e f l) as (_ & _ & R & _);
        [ unfold given; simpl; unfold get;
          rewrite ?lookup_insert_eq; simpl;
          rewrite ?lookup_insert_eq, ?lookup_insert_ne by done;
          rewrite ?lookup_insert_eq; done
        | rewrite R; clear R ]
      end;
      unfold given; simpl; unfold get, makeOptionsObj;
      rewrite ?lookup_insert_eq; simpl;
      rewrite ?lookup_insert_eq, ?lookup_insert_ne by done;
      rewrite ?lookup_insert_eq; done.
Qed.

End claims_on_wrappers.

Section claims_on_copies.
Context `{!Util}.

Lemma write_alloc_same (h : heap) (o : object) k v :
  o !! k = Some v ->
  write (<[fresh (dom h) := o]> h) (VObj (fresh (dom h))) k v = <[fresh (dom h) := o]> h.
Proof.
  intros Hk. unfold write. simpl. rewrite lookup_insert_eq. simpl.
  rewrite insert_insert_eq. by rewrite (insert_id o).
Qed.

(** C8, as the code has it: on an options object, [waitUntilFree] is
    [waitForStatus] on a copy of it in which [inUse] is [false] and [host]
    is ["127.0.0.1"], whatever host the caller gave, and [waitUntilUsed] is
    [waitForStatus] on such a copy with [inUse] set to [true]; every other
    property of the copy is the caller's.  With positional arguments they
    are [waitForStatus] with host ["127.0.0.1"]. *)
Theorem localhost_wrappers h port retryTimeMs timeOutMs :
  let copy b := <["host" := VStr LOCALHOST]> (<["inUse" := VBool b]> (deref h port)) in
  waitUntilFree h port retryTimeMs timeOutMs
  = (if is_obj port
     then let '(h1, o) := alloc h (copy false) in
          waitForStatus h1 o VUndefined VUndefined VUndefined VUndefined
     else waitForStatus h port (VStr LOCALHOST) (VBool false) retryTimeMs timeOutMs) /\
  waitUntilUsed h port retryTimeMs timeOutMs
  = (if is_obj port
     then let '(h1, o) := alloc h (copy true) in
          waitForStatus h1 o VUndefined VUndefined VUndefined VUndefined
     else waitForStatus h port (VStr LOCALHOST) (VBool true) retryTimeMs timeOutMs) /\
  (forall b k, k <> "host" -> k <> "inUse" -> copy b !! k = deref h port !! k).
Proof.
  intros copy. split; [|split].
  - unfold waitUntilFree. destruct (is_obj port) eqn:Ho.
    + by rewrite assign_copy2.
    + by rewrite waitForStatus_positional.
  - unfold waitUntilUsed, waitUntilUsedOnHost. destruct (is_obj port) eqn:Ho.
    + rewrite assign_copy2. unfold alloc. cbn [is_obj].
      rewrite write_alloc_same; [done|].
      rewrite lookup_insert_ne by done. by rewrite lookup_insert_eq.
    + unfold alloc. cbn [is_obj].
      rewrite write_alloc_same;
        [|unfold makeOptionsObj; rewrite !lookup_insert_ne by done;
          by rewrite lookup_insert_eq].
      rewrite (waitForStatus_positional h port) by done. reflexivity.
  - intros b k H1 H2. subst copy. simpl. by rewrite !lookup_insert_ne.
Qed.

End claims_on_copies.

(** C8 as stated fails: [waitUntilFree] does not pass the caller's host on,
    its session connects to ["127.0.0.1"] where [waitForStatus] on the same
    options with [inUse] set to [false] connects to the caller's host. *)
Lemma localhost_wrappers_counterexample :
  let h : heap :=
    {[0 := <["port" := VNum 44203]> {["host" := VStr "some.host.com"]}]} in
  let s := @waitUntilFree sample_inspect h (VObj 0) VUndefined VUndefined in
  let s_ref := @waitForStatus sample_inspect (write h (VObj 0) "inUse" (VBool false))
                 (VObj 0) VUndefined VUndefined VUndefined VUndefined in
  trace s !! 4 = Some (OfProbe 0 (Probe.Connect (VNum 44203) (VStr "127.0.0.1"))) /\
  trace s_ref !! 4 = Some (OfProbe 0 (Probe.Connect (VNum 44203) (VStr "some.host.com"))) /\
  trace s <> trace s_ref.
Proof. vm_compute. repeat split; discriminate. Qed.

Lemma localhost_wrappers_witness :
  let h : heap :=
    {[0 := <["port" := VNum 44203]> {["host" := VStr "some.host.com"]}]} in
  (<["host" := VStr LOCALHOST]> (<["inUse" := VBool false]> (deref h (VObj 0))))
    !! "port" = Some (VNum 44203).
Proof.
  pose proof (@localhost_wrappers sample_inspect
    {[0 := <["port" := VNum 44203]> {["host" := VStr "some.host.com"]}]}
    (VObj 0) VUndefined VUndefined) as Hw.
  cbv zeta in Hw. destruct Hw as (_ & _ & Hk).
  exact (eq_trans (Hk false "port" ltac:(discriminate) ltac:(discriminate)) eq_refl).
Defined.

Lemma get_insert_eq (o : object) k v : get (<[k := v]> o) k = v.
Proof. unfold get. by rewrite lookup_insert_eq. Qed.

Lemma get_insert_ne (o : object) k k' v : k <> k' -> get (<[k := v]> o) k' = get o k'.
Proof. intros Hne. unfold get. by rewrite lookup_insert_ne. Qed.

Section claims_on_mutation.
Context `{!Util}.

(** C9, as the code has it.  Given an options object, [waitForStatus]
    works on that very object: when its [inUse] is a boolean, the call
    writes 250 into its [retryTimeMs] and 2000 into its [timeOutMs] where
    these are not positive integers, and touches no other object; when
    [inUse] is not a boolean the heap is left as it was.
    [waitUntilUsedOnHost] sets [inUse] to [true] in the caller's object and
    then does the same.  The values stay in the object, so a later call on
    it finds a boolean [inUse] and positive integers. *)
Theorem options_object_mutated h l evs :
  let o := deref h (VObj l) in
  let defaults (x : object) : object :=
    (if is_positiveInt (get x "timeOutMs") then x
     else <["timeOutMs" := VNum TIMEOUT]> x) in
  let defaults2 (x : object) : object :=
    defaults (if is_positiveInt (get x "retryTimeMs") then x
              else <["retryTimeMs" := VNum RETRY_TIME]> x) in
  let s := run (waitForStatus h (VObj l) VUndefined VUndefined VUndefined VUndefined) evs in
  let su := run (waitUntilUsedOnHost h (VObj l) VUndefined VUndefined VUndefined) evs in
  opts s = VObj l /\ opts su = VObj l /\
  (if is_bool (get o "inUse")
   then deref (hp s) (VObj l) = defaults2 o /\
        (forall l', l' <> l -> hp s !! l' = h !! l')
   else hp s = h) /\
  deref (hp su) (VObj l) = defaults2 (<["inUse" := VBool true]> o) /\
  (forall l', l' <> l -> hp su !! l' = h !! l') /\
  get (deref (hp su) (VObj l)) "inUse" = VBool true /\
  is_positiveInt (get (deref (hp su) (VObj l)) "retryTimeMs") = true /\
  is_positiveInt (get (deref (hp su) (VObj l)) "timeOutMs") = true.
Proof.
  intros o defaults defaults2 s su.
  assert (Hdd : forall h0, deref (with_defaults h0 (VObj l)) (VObj l)
                           = defaults2 (deref h0 (VObj l))).
  { intros h0. rewrite deref_with_defaults by done. subst defaults2 defaults.
    unfold read. cbv beta.
    destruct (is_positiveInt (get (deref h0 (VObj l)) "retryTimeMs")) eqn:E1.
    - destruct (is_positiveInt (get (deref h0 (VObj l)) "timeOutMs")); reflexivity.
    - unfold get at 2. rewrite lookup_insert_ne by done.
      fold (get (deref h0 (VObj l)) "timeOutMs").
      destruct (is_positiveInt (get (deref h0 (VObj l)) "timeOutMs")); reflexivity. }
  assert (Hs : forall h0,
    let s1 := run (waitForStatus h0 (VObj l) VUndefined VUndefined VUndefined VUndefined) evs in
    opts s1 = VObj l /\
    if is_bool (get (deref h0 (VObj l)) "inUse")
    then hp s1 = with_defaults h0 (VObj l) else hp s1 = h0).
  { intros h0 s1. subst s1.
    destruct (run_frame (waitForStatus h0 (VObj l) VUndefined VUndefined VUndefined VUndefined) evs)
      as [-> ->].
    rewrite waitForStatus_eq. unfold target. cbn [is_obj].
    change (read h0 (VObj l) "inUse") with (get (deref h0 (VObj l)) "inUse").
    destruct (is_bool (get (deref h0 (VObj l)) "inUse")); [|done].
    by destruct (doCheck_frame (armed (with_defaults h0 (VObj l)) (VObj l))) as [-> ->]. }
  assert (EU : su = run (waitForStatus (write h (VObj l) "inUse" (VBool true)) (VObj l)
                     VUndefined VUndefined VUndefined VUndefined) evs) by done.
  destruct (Hs h) as [Ho Hh]. fold s o in Ho, Hh.
  destruct (Hs (write h (VObj l) "inUse" (VBool true))) as [Ho' Hh'].
  rewrite <- EU in Ho', Hh'.
  rewrite (deref_write h (VObj l) "inUse" (VBool true) eq_refl) in Hh'. fold o in Hh'.
  unfold get at 1 in Hh'. rewrite lookup_insert_eq in Hh'. simpl in Hh'.
  assert (Hsu : deref (hp su) (VObj l) = defaults2 (<["inUse" := VBool true]> o)).
  { rewrite Hh', Hdd. cbn [deref]. by rewrite lookup_insert_eq. }
  split; [done|]. split; [done|]. split; [|split; [done|split; [|split; [|split]]]].
  - destruct (is_bool (get o "inUse")); [|done]. rewrite Hh. split; [apply Hdd|].
    intros l' Hne. by apply with_defaults_frame.
  - intros l' Hne. rewrite Hh', with_defaults_frame by done.
    simpl. by rewrite lookup_insert_ne.
  - rewrite Hsu. subst defaults2 defaults. cbv beta.
    repeat match goal with |- context [if ?b then _ else _] => destruct b end;
      rewrite ?get_insert_ne by done; by rewrite get_insert_eq.
  - rewrite Hsu. subst defaults2 defaults. cbv beta.
    destruct (is_positiveInt (get (<["inUse":=VBool true]> o) "retryTimeMs")) eqn:E1;
      match goal with |- context [if ?b then _ else _] => destruct b end;
      rewrite ?(get_insert_ne _ "timeOutMs" "retryTimeMs") by done;
      rewrite ?get_insert_eq; done.
  - rewrite Hsu. subst defaults2 defaults. cbv beta.
    match goal with |- context [if is_positiveInt (get ?x "timeOutMs") then _ else _] =>
      destruct (is_positiveInt (get x "timeOutMs")) eqn:E2 end; [done|].
    by rewrite get_insert_eq.
Qed.

End claims_on_mutation.

(** C9 as stated fails when [inUse] is not a boolean: the call is rejected
    before the defaults are written, and the object keeps a [retryTimeMs]
    that is not a positive integer. *)
Lemma options_object_counterexample :
  let h : heap :=
    {[0 := <["port" := VNum 80]> (<["inUse" := VStr "yes"]>
             {["retryTimeMs" := VNum 0]})]} in
  let s := @waitForStatus sample_inspect h (VObj 0)
             VUndefined VUndefined VUndefined VUndefined in
  is_positiveInt (read h (VObj 0) "retryTimeMs") = false /\
  read (hp s) (VObj 0) "retryTimeMs" = VNum 0 /\
  read (hp s) (VObj 0) "timeOutMs" = VUndefined /\
  deferred s = Rejected (new_Error "inUse must be a boolean").
Proof. vm_compute. done. Qed.

Lemma options_object_mutated_witness :
  let h : heap := {[0 := <["port" := VNum 44204]> {["host" := VStr "127.0.0.1"]}]} in
  let su := @waitUntilUsedOnHost sample_inspect h (VObj 0)
              VUndefined VUndefined VUndefined in
  get (deref (hp su) (VObj 0)) "inUse" = VBool true /\
  hp su !! 1 = h !! 1.
Proof.
  pose proof (@options_object_mutated sample_inspect
    {[0 := <["port" := VNum 44204]> {["host" := VStr "127.0.0.1"]}]} 0 []) as Hw.
  cbv zeta in Hw. destruct Hw as (_ & _ & _ & _ & Hframe & Hin & _).
  split; [exact Hin | exact (Hframe 1 ltac:(discriminate))].
Defined.

Lemma on_host_wrappers_witness :
  let h : heap := {[0 := <["port" := VNum 44203]> {["host" := VStr "some.host.com"]}]} in
  let sf := @waitUntilFreeOnHost sample_inspect h (VObj 0)
              VUndefined VUndefined VUndefined in
  read (hp sf) (opts sf) "host" = VStr "some.host.com".
Proof.
  pose proof (@on_host_wrappers sample_inspect
    {[0 := <["port" := VNum 44203]> {["host" := VStr "some.host.com"]}]}
    (VObj 0) VUndefined VUndefined VUndefined []) as Hw.
  cbv zeta in Hw. destruct Hw as (_ & _ & _ & _ & (Hh & _) & _).
  exact Hh.
Defined.

(** * Further properties of [index.js] *)

(** ** What holds in every state of a session *)

Section reachable_states.
Context `{!Util}.

(** X1: once the outer promise has settled, in whatever way, nothing that
    happens afterwards changes it: no timer is armed, so none can fire, no
    probe is issued, the heap is not written, and the trace only grows by
    what probes still in flight do to their own sockets and promises. *)
Theorem settled_is_final h port host inUse retryTimeMs timeOutMs evs evs' :
  let s := run (waitForStatus h port host inUse retryTimeMs timeOutMs) evs in
  deferred s <> Pending ->
  let s' := run s evs' in
  timers s = ∅ /\
  deferred s' = deferred s /\
  timers s' = ∅ /\
  timedOut s' = timedOut s /\
  length (probes s') = length (probes s) /\
  hp s' = hp s /\
  exists acts, trace s' = (trace s ++ acts)%list /\ forallb of_probe acts = true.
Proof.
  intros s Hd s'.
  assert (HI : Inv s) by apply Inv_reachable.
  destruct (inv_settled s HI Hd) as [Hem _].
  destruct (settled_run s evs' HI Hd) as (ps & acts & Er & Hl & Ha).
  fold s' in Er. destruct (run_frame s evs') as [Ehp _]. fold s' in Ehp.
  split; [done|]. rewrite Er.
  unfold log, set_probes. cbn [deferred timers timedOut probes hp trace].
  repeat split; try done. by exists acts.
Qed.

(** X2: at any time at most one probe is in flight, and while one is, no
    retry timer is armed: probing and waiting for the next attempt never
    overlap. *)
Theorem one_probe_in_flight h port host inUse retryTimeMs timeOutMs evs i p :
  let s := run (waitForStatus h port host inUse retryTimeMs timeOutMs) evs in
  probes s !! i = Some p -> Probe.deferred p = Pending ->
  (forall j q, probes s !! j = Some q -> Probe.deferred q = Pending -> j = i) /\
  (forall id d, timers s !! id <> Some (retry_cb, d)).
Proof.
  intros s Hi Hp.
  assert (HI : Inv s) by apply Inv_reachable.
  split.
  - intros j q Hj Hq. exact (inv_one_pending s HI j i q p Hj Hi Hq Hp).
  - intros id d Hid. destruct (inv_timers s HI _ _ _ Hid) as [_ [_ Hall]].
    unfold all_settled in Hall. rewrite Forall_lookup in Hall.
    specialize (Hall _ _ Hi). simpl in Hall. rewrite Hp in Hall. done.
Qed.

(** X3: no probe leaks its socket.  In every state of a session, a probe
    whose promise has settled either never created a socket (its port was
    invalid) or has removed its listeners and ended, destroyed and
    unreferenced the socket; a probe whose promise is pending holds a
    socket with both listeners attached. *)
Theorem probe_sockets_released h port host inUse retryTimeMs timeOutMs evs i p :
  let s := run (waitForStatus h port host inUse retryTimeMs timeOutMs) evs in
  probes s !! i = Some p ->
  if settled (Probe.deferred p)
  then Probe.client p = None \/ Probe.client p = Some Probe.torn_down
  else Probe.client p = Some Probe.fresh_socket.
Proof.
  intros s Hi.
  assert (HI : Inv s) by apply Inv_reachable.
  pose proof (inv_probes s HI) as Hwf. rewrite Forall_lookup in Hwf.
  specialize (Hwf _ _ Hi). unfold probe_wf in Hwf.
  by destruct (Probe.deferred p).
Qed.

End reachable_states.

Lemma settled_is_final_witness :
  let s := run (H := sample_inspect)
             (@waitForStatus sample_inspect sample_heap (VObj 0)
                VUndefined VUndefined VUndefined VUndefined)
             [SocketEmits 0 Probe.EvConnect] in
  deferred s = Fulfilled tt /\
  deferred (run (H := sample_inspect) s [TimerFires 0; SocketEmits 0 Probe.EvConnect])
  = Fulfilled tt.
Proof.
  pose proof (@settled_is_final sample_inspect sample_heap (VObj 0)
    VUndefined VUndefined VUndefined VUndefined
    [SocketEmits 0 Probe.EvConnect] [TimerFires 0; SocketEmits 0 Probe.EvConnect]
    ltac:(discriminate)) as Hw.
  cbv zeta in Hw. destruct Hw as (_ & Hd & _).
  split; [reflexivity | exact Hd].
Defined.

Lemma one_probe_in_flight_witness :
  let s := run (H := sample_inspect)
             (@waitForStatus sample_inspect sample_heap (VObj 0)
                VUndefined VUndefined VUndefined VUndefined)
             [SocketEmits 0 (Probe.EvError sample_refusal); TimerFires 1] in
  timers s !! 1 <> Some (retry_cb, VNum 250).
Proof.
  pose proof (@one_probe_in_flight sample_inspect sample_heap (VObj 0)
    VUndefined VUndefined VUndefined VUndefined
    [SocketEmits 0 (Probe.EvError sample_refusal); TimerFires 1] 1
    (Probe.Mk Pending true (Some Probe.fresh_socket)) eq_refl eq_refl) as Hw.
  cbv zeta in Hw. exact (proj2 Hw 1 (VNum 250)).
Defined.

Lemma probe_sockets_released_witness :
  let p := Probe.Mk (Fulfilled false) false (Some Probe.torn_down) in
  Probe.client p = None \/ Probe.client p = Some Probe.torn_down.
Proof.
  exact (@probe_sockets_released sample_inspect sample_heap (VObj 0)
    VUndefined VUndefined VUndefined VUndefined
    [SocketEmits 0 (Probe.EvError sample_refusal)] 0
    (Probe.Mk (Fulfilled false) false (Some Probe.torn_down)) eq_refl).
Defined.

(** ** What a session does over its life *)

Section steady_facts.

Lemma later_ok_of_probe h o i (acts : list Probe.action) :
  Forall (fun a => match a with
                   | Probe.Connect p host => p = conn_port h o /\ host = conn_host h o
                   | _ => True
                   end) acts ->
  Forall (later_ok h o) (OfProbe i <$> acts).
Proof.
  intros Ha. rewrite Forall_fmap. eapply Forall_impl; [exact Ha|].
  intros a Hx. simpl. by destruct a.
Qed.

Lemma later_ok_clears h o ids : Forall (later_ok h o) (ClearTimeout <$> ids).
Proof. rewrite Forall_fmap. by apply Forall_true. Qed.

Lemma settles_of_probe i (acts : list Probe.action) :
  List.filter outer_settles (OfProbe i <$> acts) = [].
Proof. induction acts as [|a acts IH]; [done|]. simpl. exact IH. Qed.

Lemma settles_clears ids : List.filter outer_settles (ClearTimeout <$> ids) = [].
Proof. induction ids as [|a ids IH]; [done|]. simpl. exact IH. Qed.

Lemma filter_settles_app l1 l2 :
  List.filter outer_settles (l1 ++ l2)%list
  = (List.filter outer_settles l1 ++ List.filter outer_settles l2)%list.
Proof. apply List.filter_app. Qed.

(** A settled session that only logs what probes do stays steady. *)
Lemma Steady_log_probe s i ps (acts : list Probe.action) :
  Forall (fun a => match a with
                   | Probe.Connect p host =>
                       p = conn_port (hp s) (opts s) /\ host = conn_host (hp s) (opts s)
                   | _ => True
                   end) acts ->
  (deferred s = Pending -> 0 < next_id s) ->
  Steady s -> Steady (log (OfProbe i <$> acts) (set_probes ps s)).
Proof.
  intros Ha _ [Hdl Hst (rest & Etr & Hrest)].
  destruct s as [h o d tid to rid tm n qs tr]; session_cbn.
  split; session_cbn.
  - done.
  - rewrite filter_settles_app, settles_of_probe, app_nil_r. done.
  - exists (rest ++ (OfProbe i <$> acts))%list. split; [by rewrite Etr|].
    apply Forall_app. split; [done|]. by apply later_ok_of_probe.
Qed.

Lemma emit_no_connect p ev :
  Forall (fun a => match a with Probe.Connect _ _ => False | _ => True end)
    (Probe.emit p ev).2.
Proof.
  unfold Probe.emit, Probe.onConnectCb, Probe.onErrorCb, Probe.cleanUp.
  destruct p as [d b [[c1 c2 c3 c4 c5]|]]; simpl; [|constructor].
  destruct ev as [|err]; [destruct c1 | destruct c2]; simpl;
    try destruct (strict_eq _ _); simpl; repeat constructor.
Qed.

Lemma Steady_settle_cleanUp s d' a :
  Steady s -> deferred s = Pending -> d' <> Pending ->
  outer_settles a = true ->
  Steady (cleanUp (log [a] (set_deferred d' s))).
Proof.
  intros [Hdl Hst (rest & Etr & Hrest)] Hp Hd' Ha.
  pose proof (cleanUp_frame (log [a] (set_deferred d' s)))
    as (Eh & Eo & Ed & _).
  pose proof (cleanUp_trace (log [a] (set_deferred d' s))) as Et.
  remember (cleanUp (log [a] (set_deferred d' s))) as s2 eqn:E2. clear E2.
  destruct s as [h o d tid to rid tm n qs tr], s2; session_cbn.
  revert Etr. subst. intros Etr.
  split; session_cbn.
  - done.
  - rewrite !filter_settles_app, settles_clears, app_nil_r. cbn [List.filter].
    rewrite Ha, length_app, Hst. simpl. by destruct d'.
  - exists (rest ++ [a] ++ (ClearTimeout <$> (option_list tid ++ option_list rid)))%list.
    split; [by rewrite Etr, <- !app_assoc|].
    apply Forall_app. split; [done|]. apply Forall_app. split; [|apply later_ok_clears].
    constructor; [|constructor]. by destruct a.
Qed.

Lemma Steady_retry s :
  Steady s -> deferred s = Pending -> 0 < next_id s ->
  Steady (set_retryId (Some (next_id s))
            (setTimeout retry_cb (read (hp s) (opts s) "retryTimeMs") s).2).
Proof.
  intros [Hdl Hst (rest & Etr & Hrest)] Hp Hn.
  destruct s as [h o d tid to rid tm n qs tr]; session_cbn. subst d.
  split; session_cbn.
  - intros _. destruct (Hdl eq_refl) as [-> Ht]. split; [done|].
    rewrite lookup_insert_ne by lia. done.
  - rewrite filter_settles_app, length_app, Hst. done.
  - exists (rest ++ [SetTimeout n retry_cb (read h o "retryTimeMs")])%list.
    split; [by rewrite Etr|]. apply Forall_app. split; [done|].
    by repeat constructor.
Qed.

Lemma Steady_reaction p s :
  Steady s ->
  (timedOut s = true -> deferred s <> Pending) ->
  (deferred s <> Pending -> timedOut s = true) ->
  (deferred s = Pending -> 0 < next_id s) ->
  Steady (reaction p s).
Proof.
  intros HS Hto Hlive Hn. unfold reaction, onFulfilled, onRejected.
  destruct (timedOut s) eqn:E; [by destruct (Probe.deferred p)|].
  assert (Hp : deferred s = Pending).
  { destruct (deferred s) eqn:Ed; [done | |]; by specialize (Hlive ltac:(done)). }
  destruct (Probe.deferred p) as [|used|err]; [done| |].
  - destruct (strict_eq _ _).
    + apply Steady_settle_cleanUp; try done. by rewrite Hp.
    + apply Steady_retry; auto.
  - apply Steady_settle_cleanUp; try done. by rewrite Hp.
Qed.

Context `{!Util}.

Lemma Steady_doCheck s :
  Steady s -> deferred s = Pending -> timedOut s = false -> 0 < next_id s ->
  Steady (doCheck s).
Proof.
  intros HS Hp Hto Hn. unfold doCheck.
  destruct (Probe.check (hp s) (read (hp s) (opts s) "port")
              (read (hp s) (opts s) "host")) as [p acts] eqn:Ec.
  assert (Hacts : Forall (fun a => match a with
              | Probe.Connect q host =>
                  q = conn_port (hp s) (opts s) /\ host = conn_host (hp s) (opts s)
              | _ => True end) acts).
  { destruct (is_port (Probe.port_of (hp s) (read (hp s) (opts s) "port"))) eqn:Hport.
    - rewrite check_valid in Ec by done. injection Ec as <- <-.
      by repeat constructor.
    - rewrite check_invalid in Ec by done. injection Ec as <- <-.
      by repeat constructor. }
  apply Steady_reaction.
  - by apply Steady_log_probe.
  - destruct s; session_cbn. by subst.
  - destruct s; session_cbn. by subst.
  - by destruct s.
Qed.

Lemma Steady_step s e : Inv s -> Steady s -> Steady (step s e).
Proof.
  intros HI HS. destruct e as [id|i ev]; simpl.
  - destruct (timers s !! id) as [[[|] d]|] eqn:Hid; [| |done].
    + destruct (Inv_timer_pending _ _ _ HI Hid) as [Hp Hto].
      unfold timeoutFunc.
      set (s1 := set_timedOut true (set_timers (delete id (timers s)) s)).
      pose proof (cleanUp_frame s1) as (Eh & Eo & Ed & _).
      pose proof (cleanUp_trace s1) as Et.
      destruct HS as [Hdl Hst (rest & Etr & Hrest)].
      remember (cleanUp s1) as s2. subst s1.
      destruct s as [h o dd tid to rid tm n ps tr], s2; session_cbn.
      revert Etr. subst. intros Etr.
      split; session_cbn.
      * done.
      * rewrite !filter_settles_app, settles_clears, app_nil_r, length_app, Hst. done.
      * eexists. split; [by rewrite Etr, <- !app_assoc|].
        apply Forall_app. split; [done|]. apply Forall_app.
        split; [apply later_ok_clears | by repeat constructor].
    + destruct (Inv_timer_pending _ _ _ HI Hid) as [Hp Hto].
      destruct (inv_timers s HI _ _ _ Hid) as [Hlt _].
      apply Steady_doCheck; try (by destruct s); [|destruct s; session_cbn; lia].
      destruct HS as [Hdl Hst Htr].
      destruct s as [h o dd tid to rid tm n ps tr]; session_cbn.
      split; session_cbn; try done.
      intros Hd. destruct (Hdl Hd) as [-> H0]. split; [done|].
      rewrite lookup_delete_ne; [done|]. intros ->. rewrite Hid in H0. done.
  - destruct (probes s !! i) as [p|] eqn:Hi; [|done].
    destruct (Probe.emit p ev) as [p' acts] eqn:He.
    assert (Hn : deferred s = Pending -> 0 < next_id s).
    { intros Hd. destruct (inv_deadline s HI Hd) as (id & d & _ & Hid).
      destruct (inv_timers s HI _ _ _ Hid). lia. }
    assert (HS1 : Steady (log (OfProbe i <$> acts)
                            (set_probes (<[i:=p']> (probes s)) s))).
    { apply Steady_log_probe; [|done..].
      pose proof (emit_no_connect p ev) as Hnc. rewrite He in Hnc.
      eapply Forall_impl; [exact Hnc|]. intros a Ha. by destruct a. }
    destruct (settled (Probe.deferred p)) eqn:Hs; [done|].
    apply Steady_reaction; [done| | |by destruct s].
    + intros Hto. assert (Hto' : timedOut s = true) by (by destruct s).
      rewrite <- (ltac:(by destruct s) : deferred s = deferred
        (log (OfProbe i <$> acts) (set_probes (<[i:=p']> (probes s)) s))).
      rewrite (inv_timedOut s HI Hto'). done.
    + intros Hd. assert (Hd' : deferred s <> Pending) by (by destruct s).
      destruct (timedOut s) eqn:E; [by destruct s|].
      destruct (inv_settled s HI Hd') as [_ Hall]. specialize (Hall E).
      unfold all_settled in Hall. rewrite Forall_lookup in Hall.
      specialize (Hall _ _ Hi). simpl in Hall. congruence.
Qed.

Lemma Steady_armed h o : Steady (armed h o).
Proof.
  split; simpl; [|done|].
  - intros _. split; [done|]. apply lookup_singleton_eq.
  - exists []. by split.
Qed.

(** Every state of a session whose [inUse] is a boolean is steady. *)
Lemma Steady_reachable h port host inUse retryTimeMs timeOutMs evs :
  is_bool (get (given h port host inUse retryTimeMs timeOutMs) "inUse") = true ->
  Steady (run (waitForStatus h port host inUse retryTimeMs timeOutMs) evs).
Proof.
  intros Hb.
  assert (H0 : Steady (waitForStatus h port host inUse retryTimeMs timeOutMs)).
  { rewrite waitForStatus_eq.
    pose proof (target_spec h port host inUse retryTimeMs timeOutMs) as Ht.
    destruct (target _ _ _ _ _ _) as [h0 o]. destruct Ht as [_ Hd].
    unfold read at 1. rewrite Hd, Hb.
    apply Steady_doCheck; [apply Steady_armed | done | done | simpl; lia]. }
  pose proof (Inv_waitForStatus h port host inUse retryTimeMs timeOutMs) as HI.
  revert H0 HI. generalize (waitForStatus h port host inUse retryTimeMs timeOutMs).
  induction evs as [|e evs IH]; intros s HS HI; [done|].
  simpl. apply IH; [by apply Steady_step | by apply Inv_step].
Qed.

End steady_facts.

Section busy_facts.
Context `{!Util}.

Lemma busy_reaction_settled p s :
  settled (Probe.deferred p) = true ->
  (timedOut s = true -> deferred s <> Pending) ->
  deferred (reaction p s) = Pending -> busy (reaction p s).
Proof.
  intros Hs Hto. unfold reaction, onFulfilled, onRejected.
  destruct (Probe.deferred p) as [|used|err]; [done| |].
  - destruct (timedOut s) eqn:E; [intros Hd; by destruct (Hto eq_refl)|].
    destruct (strict_eq _ _).
    + match goal with |- context [cleanUp ?x] =>
        destruct (cleanUp_frame x) as (_ & _ & -> & _) end.
      destruct s as [h o [| |] tid to rid tm n ps tr]; session_cbn; done.
    + intros _. right. exists (next_id s), (read (hp s) (opts s) "retryTimeMs").
      destruct s; session_cbn. apply lookup_insert_eq.
  - destruct (timedOut s) eqn:E; [intros Hd; by destruct (Hto eq_refl)|].
    match goal with |- context [cleanUp ?x] =>
      destruct (cleanUp_frame x) as (_ & _ & -> & _) end.
    destruct s as [h o [| |] tid to rid tm n ps tr]; session_cbn; done.
Qed.

Lemma busy_doCheck s :
  timedOut s = false -> deferred (doCheck s) = Pending -> busy (doCheck s).
Proof.
  intros Hto. unfold doCheck.
  destruct (is_port (Probe.port_of (hp s) (read (hp s) (opts s) "port"))) eqn:Hport.
  - rewrite check_valid by done. unfold reaction. cbn [Probe.deferred].
    intros _. left. exists (length (probes s)), (Probe.Mk Pending true (Some Probe.fresh_socket)).
    split; [|done]. destruct s; session_cbn. by rewrite lookup_app_r, Nat.sub_diag.
  - rewrite check_invalid by done. apply busy_reaction_settled; [done|].
    destruct s; session_cbn. congruence.
Qed.

Lemma busy_step s e :
  Inv s -> (deferred s = Pending -> busy s) ->
  deferred (step s e) = Pending -> busy (step s e).
Proof.
  intros HI HB. destruct e as [id|i ev]; simpl.
  - destruct (timers s !! id) as [[[|] d]|] eqn:Hid; [| |done].
    + unfold timeoutFunc. destruct (Inv_timer_pending _ _ _ HI Hid) as [Hp _].
      match goal with |- context [cleanUp ?x] =>
        destruct (cleanUp_frame x) as (_ & _ & Ed & _) end.
      intros Hd. exfalso. revert Hd. unfold log at 1, set_deferred at 1.
      cbn [deferred]. rewrite Ed. destruct s; session_cbn. by subst.
    + destruct (Inv_timer_pending _ _ _ HI Hid) as [_ Hto].
      apply busy_doCheck. by destruct s.
  - destruct (probes s !! i) as [p|] eqn:Hi; [|done].
    assert (Hwf : probe_wf p).
    { pose proof (inv_probes s HI) as H0. rewrite Forall_lookup in H0. eauto. }
    destruct (settled (Probe.deferred p)) eqn:Hs.
    + rewrite emit_settled by done. rewrite list_insert_id by done.
      intros Hd. destruct HB as [(j & q & Hj & Hq)|(id & d & Hid)].
      * by destruct s.
      * left. exists j, q. by destruct s.
      * right. exists id, d. by destruct s.
    + assert (Hp : Probe.deferred p = Pending) by (by destruct (Probe.deferred p)).
      destruct (emit_pending p ev Hwf Hp) as (d & a & -> & _ & Hd & _).
      apply busy_reaction_settled; [by destruct d|].
      intros Hto. assert (Hto' : timedOut s = true) by (by destruct s).
      rewrite <- (ltac:(by destruct s) : deferred s = deferred
        (log (OfProbe i <$> a :: Probe.teardown)
           (set_probes (<[i:=_]> (probes s)) s))).
      rewrite (inv_timedOut s HI Hto'). done.
Qed.

(** X4: a session never stalls.  In every state in which the outer promise
    is still pending, either a probe is in flight or a retry timer is
    armed, so that the session always has a next step of its own besides
    the deadline. *)
Theorem session_never_stalls h port host inUse retryTimeMs timeOutMs evs :
  let s := run (waitForStatus h port host inUse retryTimeMs timeOutMs) evs in
  deferred s = Pending ->
  (exists i p, probes s !! i = Some p /\ Probe.deferred p = Pending) \/
  (exists id d, timers s !! id = Some (retry_cb, d)).
Proof.
  intros s. subst s.
  assert (H0 : deferred (waitForStatus h port host inUse retryTimeMs timeOutMs) = Pending ->
               busy (waitForStatus h port host inUse retryTimeMs timeOutMs)).
  { rewrite waitForStatus_eq. destruct (target _ _ _ _ _ _) as [h0 o].
    destruct (is_bool _); [|done]. by apply busy_doCheck. }
  pose proof (Inv_waitForStatus h port host inUse retryTimeMs timeOutMs) as HI.
  revert H0 HI. generalize (waitForStatus h port host inUse retryTimeMs timeOutMs).
  induction evs as [|e evs IH]; intros s HB HI; [exact HB|].
  simpl. apply IH; [by apply busy_step | by apply Inv_step].
Qed.

End busy_facts.

Section steady_theorems.
Context `{!Util}.

(** X5: the deadline is one timer, set once.  While the outer promise is
    pending, the deadline timer is armed under the handle the call gave it,
    with the delay [timeOutMs] (2000 when that is not a positive integer),
    and no other armed timer is a deadline timer. *)
Theorem deadline_timer h port host inUse retryTimeMs timeOutMs evs :
  let o := given h port host inUse retryTimeMs timeOutMs in
  let s := run (waitForStatus h port host inUse retryTimeMs timeOutMs) evs in
  deferred s = Pending ->
  timeoutId s = Some 0 /\
  timers s !! 0 = Some (timeoutFunc_cb, or_default (get o "timeOutMs") TIMEOUT) /\
  (forall id d, timers s !! id = Some (timeoutFunc_cb, d) -> id = 0).
Proof.
  intros o s Hp.
  destruct (is_bool (get o "inUse")) eqn:Hb.
  - pose proof (Steady_reachable h port host inUse retryTimeMs timeOutMs evs Hb) as HS.
    fold s in HS. destruct (st_deadline s HS Hp) as [Ht H0].
    destruct (session_reads h port host inUse retryTimeMs timeOutMs evs Hb)
      as (_ & _ & _ & _ & Rt). fold o s in Rt. rewrite Rt in H0.
    split; [done|]. split; [done|].
    intros id d Hid.
    assert (HI : Inv s) by apply Inv_reachable.
    destruct (inv_timers s HI _ _ _ Hid) as [_ Hid']. simpl in Hid'. congruence.
  - exfalso. subst s. rewrite waitForStatus_eq in Hp.
    pose proof (target_spec h port host inUse retryTimeMs timeOutMs) as Ht.
    destruct (target _ _ _ _ _ _) as [h0 o']. destruct Ht as [_ Hd]. fold o in Hd.
    unfold read at 1 in Hp. rewrite Hd, Hb, refused_run in Hp. done.
Qed.

(** X6: the outer promise is settled by exactly one call of [resolve] or
    [reject].  In every state of every session, the number of such calls
    made so far is one if the promise has settled and zero if it is
    pending: no race between the deadline and a probe settles it twice. *)
Theorem settled_by_one_call h port host inUse retryTimeMs timeOutMs evs :
  let s := run (waitForStatus h port host inUse retryTimeMs timeOutMs) evs in
  length (List.filter outer_settles (trace s))
  = if settled (deferred s) then 1 else 0.
Proof.
  intros s. subst s.
  destruct (is_bool (get (given h port host inUse retryTimeMs timeOutMs) "inUse")) eqn:Hb.
  - apply st_settles. by apply Steady_reachable.
  - rewrite waitForStatus_eq.
    pose proof (target_spec h port host inUse retryTimeMs timeOutMs) as Ht.
    destruct (target _ _ _ _ _ _) as [h0 o']. destruct Ht as [_ Hd].
    unfold read at 1. unfold read at 1. rewrite Hd, Hb, refused_run. done.
Qed.

(** X7: what a session does over its whole life, when [inUse] is a boolean
    and the port is not an object.  Its first action arms the deadline
    timer; after that every timer it sets is a retry timer with the delay
    [retryTimeMs] (250 when that is not a positive integer), and every
    connection it opens goes to the port and the host of the options: all
    attempts probe the same address. *)
Theorem session_trace h port host inUse retryTimeMs timeOutMs evs :
  let o := given h port host inUse retryTimeMs timeOutMs in
  let s := run (waitForStatus h port host inUse retryTimeMs timeOutMs) evs in
  is_bool (get o "inUse") = true ->
  is_obj (get o "port") = false ->
  exists rest,
    trace s = SetTimeout 0 timeoutFunc_cb (or_default (get o "timeOutMs") TIMEOUT) :: rest /\
    Forall (fun a =>
      match a with
      | SetTimeout _ cb d =>
          cb = retry_cb /\ d = or_default (get o "retryTimeMs") RETRY_TIME
      | OfProbe _ (Probe.Connect p host') => p = get o "port" /\ host' = get o "host"
      | _ => True
      end) rest.
Proof.
  intros o s Hb Hobj.
  pose proof (Steady_reachable h port host inUse retryTimeMs timeOutMs evs Hb) as HS.
  fold s in HS. destruct (st_trace s HS) as (rest & Etr & Hrest).
  destruct (session_reads h port host inUse retryTimeMs timeOutMs evs Hb)
    as (_ & Rp & Rh & Rr & Rt). fold o s in Rp, Rh, Rr, Rt.
  exists rest. split; [by rewrite Etr, Rt|].
  eapply Forall_impl; [exact Hrest|]. intros a Ha.
  destruct a as [id cb d| | | |i [ | |p0 h0| | | | | |]]; try done.
  - simpl in Ha. by rewrite Rr in Ha.
  - simpl in Ha. unfold conn_port, conn_host in Ha. rewrite Rp, Rh in Ha.
    by rewrite port_of_positional, host_of_positional in Ha.
Qed.

End steady_theorems.

Lemma session_never_stalls_witness :
  let s := run (H := sample_inspect)
             (@waitForStatus sample_inspect sample_heap (VObj 0)
                VUndefined VUndefined VUndefined VUndefined)
             [SocketEmits 0 (Probe.EvError sample_refusal)] in
  (exists i p, probes s !! i = Some p /\ Probe.deferred p = Pending) \/
  (exists id d, timers s !! id = Some (retry_cb, d)).
Proof.
  exact (@session_never_stalls sample_inspect sample_heap (VObj 0)
    VUndefined VUndefined VUndefined VUndefined
    [SocketEmits 0 (Probe.EvError sample_refusal)] eq_refl).
Defined.

Lemma deadline_timer_witness :
  let s := run (H := sample_inspect)
             (@waitForStatus sample_inspect sample_heap (VObj 0)
                VUndefined VUndefined VUndefined VUndefined)
             [SocketEmits 0 (Probe.EvError sample_refusal); TimerFires 1] in
  timers s !! 0 = Some (timeoutFunc_cb, VNum 2000).
Proof.
  exact (proj1 (proj2 (@deadline_timer sample_inspect sample_heap (VObj 0)
    VUndefined VUndefined VUndefined VUndefined
    [SocketEmits 0 (Probe.EvError sample_refusal); TimerFires 1] eq_refl))).
Defined.

Lemma session_trace_witness :
  let s := run (H := sample_inspect)
             (@waitForStatus sample_inspect sample_heap (VObj 0)
                VUndefined VUndefined VUndefined VUndefined)
             [SocketEmits 0 (Probe.EvError sample_refusal); TimerFires 1] in
  exists rest, trace s = SetTimeout 0 timeoutFunc_cb (VNum 2000) :: rest.
Proof.
  destruct (@session_trace sample_inspect sample_heap (VObj 0)
    VUndefined VUndefined VUndefined VUndefined
    [SocketEmits 0 (Probe.EvError sample_refusal); TimerFires 1] eq_refl eq_refl)
    as (rest & Hr & _).
  exists rest. exact Hr.
Defined.

(** ** The host of a probe *)

Section host_facts.
Context `{!Util}.

(** X8: where [check] connects.  Given an options object, it connects to
    the object's [host] property when the object has one, whatever its
    value, and to ["127.0.0.1"] only when the object has no such property.
    Called with positional arguments it connects to the host argument as it
    is, [undefined] included: the object made of the arguments always has a
    [host] property, which overrides the default. *)
Theorem check_host_default h port host :
  is_port (Probe.port_of h port) = true ->
  (Probe.check h port host).2
  = [Probe.NewSocket; Probe.Once "connect"; Probe.Once "error";
     Probe.Connect (Probe.port_of h port)
       (if is_obj port
        then match deref h port !! "host" with
             | Some v => v
             | None => VStr "127.0.0.1"
             end
        else host)].
Proof.
  intros Hp. rewrite check_valid by done. cbn [snd]. do 4 f_equal.
  destruct (is_obj port) eqn:Ho; [|by rewrite host_of_positional].
  f_equal.
  unfold Probe.host_of, Probe.check_opts, Object_assign, get. simpl.
  rewrite Ho, lookup_union. destruct (deref h port !! "host") as [v|]; simpl.
  - by rewrite lookup_singleton_eq.
  - by rewrite lookup_singleton_eq.
Qed.

End host_facts.

Lemma check_host_default_witness :
  (@Probe.check sample_inspect ∅ (VNum 22) VUndefined).2
  = [Probe.NewSocket; Probe.Once "connect"; Probe.Once "error";
     Probe.Connect (VNum 22) VUndefined].
Proof.
  exact (@check_host_default sample_inspect ∅ (VNum 22) VUndefined eq_refl).
Defined.

(** ** What the calls write to the heap *)

Section heap_writes.
Context `{!Util}.

Lemma with_defaults_fixed h o :
  is_positiveInt (read h o "retryTimeMs") = true ->
  is_positiveInt (read h o "timeOutMs") = true ->
  with_defaults h o = h.
Proof. intros H1 H2. unfold with_defaults. by rewrite H1, H2. Qed.

Lemma with_defaults_idem h o :
  is_obj o = true -> with_defaults (with_defaults h o) o = with_defaults h o.
Proof.
  intros Ho. apply with_defaults_fixed.
  - rewrite with_defaults_retry by done. unfold or_default.
    by destruct (is_positiveInt (read h o "retryTimeMs")) eqn:E.
  - rewrite with_defaults_timeout by done. unfold or_default.
    by destruct (is_positiveInt (read h o "timeOutMs")) eqn:E.
Qed.

(** The heap of a session on an options object. *)
Lemma session_heap h l evs :
  hp (run (waitForStatus h (VObj l) VUndefined VUndefined VUndefined VUndefined) evs)
  = if is_bool (read h (VObj l) "inUse") then with_defaults h (VObj l) else h.
Proof.
  destruct (run_frame (waitForStatus h (VObj l) VUndefined VUndefined VUndefined VUndefined) evs)
    as [-> _].
  rewrite waitForStatus_eq. unfold target. cbn [is_obj].
  destruct (is_bool (read h (VObj l) "inUse")); [|done].
  by destruct (doCheck_frame (armed (with_defaults h (VObj l)) (VObj l))) as [-> _].
Qed.

Lemma session_heap_frame h l l' evs :
  l <> l' ->
  hp (run (waitForStatus h (VObj l) VUndefined VUndefined VUndefined VUndefined) evs) !! l'
  = h !! l'.
Proof.
  intros Hne. rewrite session_heap. destruct (is_bool _); [|done].
  by apply with_defaults_frame.
Qed.

Lemma fresh_not_there (h : heap) l x : h !! l = Some x -> fresh (dom h) <> l.
Proof.
  intros Hl Heq. pose proof (is_fresh (dom h)) as Hf. rewrite Heq in Hf.
  apply Hf. apply elem_of_dom. by eexists.
Qed.

(** X9: the calls that work on a copy leave the caller's objects alone.
    [waitUntilFreeOnHost], [waitUntilFree] and [waitUntilUsed], and every
    call with positional arguments, put their options in a new object:
    whatever happens afterwards, each object that was in the heap before
    the call is still there, unchanged. *)
Theorem copies_leave_caller_untouched
    h port host inUse retryTimeMs timeOutMs evs l x :
  h !! l = Some x ->
  hp (run (waitUntilFreeOnHost h port host retryTimeMs timeOutMs) evs) !! l = Some x /\
  hp (run (waitUntilFree h port retryTimeMs timeOutMs) evs) !! l = Some x /\
  hp (run (waitUntilUsed h port retryTimeMs timeOutMs) evs) !! l = Some x /\
  (is_obj port = false ->
   hp (run (waitForStatus h port host inUse retryTimeMs timeOutMs) evs) !! l = Some x /\
   hp (run (waitUntilUsedOnHost h port host retryTimeMs timeOutMs) evs) !! l = Some x).
Proof.
  intros Hl. pose proof (fresh_not_there h l x Hl) as Hne.
  assert (Hcopy : forall c,
    hp (run (waitForStatus (<[fresh (dom h) := c]> h) (VObj (fresh (dom h)))
               VUndefined VUndefined VUndefined VUndefined) evs) !! l = Some x).
  { intros c. rewrite session_heap_frame by done. by rewrite lookup_insert_ne. }
  assert (Hused : forall c,
    hp (run (waitUntilUsedOnHost (<[fresh (dom h) := c]> h) (VObj (fresh (dom h)))
               VUndefined VUndefined VUndefined) evs) !! l = Some x).
  { intros c. unfold waitUntilUsedOnHost. cbn [is_obj write].
    rewrite insert_insert_eq. apply Hcopy. }
  split; [|split; [|split]].
  - unfold waitUntilFreeOnHost, alloc. destruct (is_obj port); apply Hcopy.
  - unfold waitUntilFree, alloc. destruct (is_obj port); apply Hcopy.
  - unfold waitUntilUsed, alloc. destruct (is_obj port); apply Hused.
  - intros Ho. split.
    + rewrite waitForStatus_positional by done. unfold alloc. apply Hcopy.
    + unfold waitUntilUsedOnHost, alloc. rewrite Ho. apply Hcopy.
Qed.

(** X10: the defaults are written at most once.  A call of
    [waitForStatus] on an options object whose [retryTimeMs] and
    [timeOutMs] are positive integers writes nothing to the heap; and
    after any call on an object, a later call on the same object writes
    nothing more, whatever happened to the first session. *)
Theorem defaults_written_once h l evs evs' :
  let s1 := run (waitForStatus h (VObj l) VUndefined VUndefined VUndefined VUndefined) evs in
  let s2 := run (waitForStatus (hp s1) (VObj l)
                   VUndefined VUndefined VUndefined VUndefined) evs' in
  (is_positiveInt (read h (VObj l) "retryTimeMs") = true ->
   is_positiveInt (read h (VObj l) "timeOutMs") = true -> hp s1 = h) /\
  hp s2 = hp s1.
Proof.
  intros s1 s2. subst s2 s1. rewrite !session_heap. split.
  - intros H1 H2. destruct (is_bool _); [|done]. by apply with_defaults_fixed.
  - destruct (is_bool (read h (VObj l) "inUse")) eqn:Hb.
    + rewrite with_defaults_other, Hb by done. by apply with_defaults_idem.
    + by rewrite Hb.
Qed.

End heap_writes.

Lemma copies_leave_caller_untouched_witness :
  let o : object := <["port" := VNum 44203]> {["host" := VStr "some.host.com"]} in
  let h : heap := {[0 := o]} in
  hp (@waitUntilFree sample_inspect h (VObj 0) VUndefined VUndefined) !! 0 = Some o.
Proof.
  exact (proj1 (proj2 (@copies_leave_caller_untouched sample_inspect
    {[0 := <["port" := VNum 44203]> {["host" := VStr "some.host.com"]}]}
    (VObj 0) VUndefined VUndefined VUndefined VUndefined [] 0 _ eq_refl))).
Defined.

Lemma defaults_written_once_witness :
  let h : heap :=
    {[0 := <["port" := VNum 44203]> (<["inUse" := VBool false]>
             (<["retryTimeMs" := VNum 500]> {["timeOutMs" := VNum 4000]}))]} in
  hp (@waitForStatus sample_inspect h (VObj 0)
        VUndefined VUndefined VUndefined VUndefined) = h.
Proof.
  exact (proj1 (@defaults_written_once sample_inspect
    {[0 := <["port" := VNum 44203]> (<["inUse" := VBool false]>
             (<["retryTimeMs" := VNum 500]> {["timeOutMs" := VNum 4000]}))]}
    0 [] []) eq_refl eq_refl).
Defined.

(** ** When the session hears of a probe *)

Section reaction_order.
Context `{!Util}.

Lemma reaction_trace_own p s :
  exists acts, trace (reaction p s) = (trace s ++ acts)%list /\
               forallb (fun a => negb (of_probe a)) acts = true.
Proof.
  unfold reaction, onFulfilled, onRejected, cleanUp.
  destruct s as [h o d [tid|] [|] [rid|] tm n ps tr];
    destruct (Probe.deferred p); session_cbn;
    repeat match goal with |- context [if ?b then _ else _] => destruct b end;
    session_cbn; rewrite <- ?app_assoc;
    try (eexists; split; [reflexivity | reflexivity]);
    by (exists []; rewrite app_nil_r).
Qed.

(** X16: the session hears of a probe only after the probe has released
    its socket.  In any state a session can reach, when a socket event
    settles a pending probe, the trace grows by the call that settles the
    promise of the probe, then the whole teardown of the socket, and only
    then by what the session does in reaction (settling the outer promise,
    clearing or arming timers): no reaction runs before the teardown. *)
Theorem reaction_after_teardown h port host inUse retryTimeMs timeOutMs evs i p ev :
  let s := run (waitForStatus h port host inUse retryTimeMs timeOutMs) evs in
  probes s !! i = Some p -> Probe.deferred p = Pending ->
  exists a rest,
    trace (step s (SocketEmits i ev))
    = (trace s ++ (OfProbe i <$> a :: Probe.teardown) ++ rest)%list /\
    Probe.settles a = true /\
    forallb (fun x => negb (of_probe x)) rest = true.
Proof.
  intros s Hi Hp.
  assert (HI : Inv s) by apply Inv_reachable.
  assert (Hwf : probe_wf p).
  { pose proof (inv_probes s HI) as H0. rewrite Forall_lookup in H0. eauto. }
  rewrite (step_probe_settles s i p) by done.
  destruct (emit_pending p ev Hwf Hp) as (d & a & -> & Ha & _ & _).
  cbn [fst snd].
  match goal with |- context [reaction ?q ?x] =>
    destruct (reaction_trace_own q x) as (rest & -> & Hrest) end.
  exists a, rest. split; [|done].
  unfold log, set_probes. cbn [trace]. by rewrite <- app_assoc.
Qed.

End reaction_order.

Lemma reaction_after_teardown_witness :
  let s := @waitForStatus sample_inspect
             {[0 := <["port" := VNum 44205]> {["inUse" := VBool true]}]} (VObj 0)
             VUndefined VUndefined VUndefined VUndefined in
  exists a rest,
    trace (step (H := sample_inspect) s (SocketEmits 0 Probe.EvConnect))
    = (trace s ++ (OfProbe 0 <$> a :: Probe.teardown) ++ rest)%list.
Proof.
  pose proof (@reaction_after_teardown sample_inspect
    {[0 := <["port" := VNum 44205]> {["inUse" := VBool true]}]} (VObj 0)
    VUndefined VUndefined VUndefined VUndefined [] 0
    (Probe.Mk Pending true (Some Probe.fresh_socket)) Probe.EvConnect) as Hw.
  cbv zeta in Hw. specialize (Hw eq_refl eq_refl).
  destruct Hw as (a & rest & Hr & _).
  exists a, rest. exact Hr.
Defined.

(** * The later version *)

Section later_options.

Lemma makeOptionsObj_eq h port host inUse retryTimeMs timeOutMs :
  Later.makeOptionsObj h port host inUse retryTimeMs timeOutMs
  = let '(h0, o) := target h port host inUse retryTimeMs timeOutMs in
    (Later.with_host (with_defaults h0 o) o, o).
Proof.
  unfold Later.makeOptionsObj, target, with_defaults, Later.with_host.
  destruct (if is_obj port then _ else _) as [h0 o].
  destruct (is_positiveInt (read h0 o "retryTimeMs")); cbn [negb];
    match goal with |- context [is_positiveInt ?v] => destruct (is_positiveInt v) end;
    reflexivity.
Qed.

Lemma with_host_host h o :
  is_obj o = true ->
  read (Later.with_host h o) o "host" = Later.or_localhost (read h o "host").
Proof.
  intros Ho. unfold Later.with_host, Later.or_localhost.
  destruct (strict_eq (read h o "host") VUndefined); [|done].
  by rewrite read_write_eq.
Qed.

Lemma with_host_other h o k :
  k <> "host" -> read (Later.with_host h o) o k = read h o k.
Proof.
  intros Hk. unfold Later.with_host.
  destruct (strict_eq _ _); [|done]. by rewrite read_write_ne.
Qed.

Lemma with_host_frame h l l' : l <> l' -> Later.with_host h (VObj l) !! l' = h !! l'.
Proof.
  intros Hne. unfold Later.with_host. destruct (strict_eq _ _); [|done].
  simpl. by rewrite lookup_insert_ne.
Qed.

Lemma or_localhost_defined v : Later.or_localhost v <> VUndefined.
Proof.
  unfold Later.or_localhost, strict_eq. case_bool_decide; [done|]. done.
Qed.

Lemma or_localhost_idem v : Later.or_localhost (Later.or_localhost v) = Later.or_localhost v.
Proof.
  unfold Later.or_localhost at 1. unfold strict_eq.
  rewrite bool_decide_eq_false_2; [done|]. apply or_localhost_defined.
Qed.

Lemma or_default_positive v d :
  (0 < d)%Z -> is_positiveInt (or_default v d) = true.
Proof.
  intros Hd. unfold or_default. destruct (is_positiveInt v) eqn:E; [exact E|].
  simpl. by apply Z.ltb_lt.
Qed.

Lemma or_default_idem v d : (0 < d)%Z -> or_default (or_default v d) d = or_default v d.
Proof.
  intros Hd. unfold or_default at 1.
  destruct (is_positiveInt (or_default v d)) eqn:E; [done|].
  unfold or_default in E. destruct (is_positiveInt v) eqn:E'; [congruence|].
  simpl in E. apply Z.ltb_ge in E. lia.
Qed.

(** The result of [makeOptionsObj], read property by property. *)
Lemma makeOptionsObj_result h port host inUse retryTimeMs timeOutMs :
  let g := given h port host inUse retryTimeMs timeOutMs in
  let r := Later.makeOptionsObj h port host inUse retryTimeMs timeOutMs in
  is_obj r.2 = true /\
  (if is_obj port then r.2 = port else r.2 = VObj (fresh (dom h))) /\
  read r.1 r.2 "retryTimeMs" = or_default (get g "retryTimeMs") RETRY_TIME /\
  read r.1 r.2 "timeOutMs" = or_default (get g "timeOutMs") TIMEOUT /\
  read r.1 r.2 "host" = Later.or_localhost (get g "host") /\
  (forall k, k <> "retryTimeMs" -> k <> "timeOutMs" -> k <> "host" ->
     read r.1 r.2 k = get g k) /\
  (forall l x, h !! l = Some x -> VObj l <> r.2 -> r.1 !! l = Some x).
Proof.
  intros g r. subst r. rewrite makeOptionsObj_eq.
  pose proof (target_spec h port host inUse retryTimeMs timeOutMs) as Ht.
  assert (Hfr : forall l x, h !! l = Some x ->
            (target h port host inUse retryTimeMs timeOutMs).1 !! l = Some x).
  { intros l x Hl. unfold target, alloc. destruct (is_obj port); [done|].
    simpl. rewrite lookup_insert_ne; [done|]. by eapply fresh_not_there. }
  assert (Href : if is_obj port
                 then (target h port host inUse retryTimeMs timeOutMs).2 = port
                 else (target h port host inUse retryTimeMs timeOutMs).2
                      = VObj (fresh (dom h))).
  { unfold target, alloc. by destruct (is_obj port). }
  destruct (target _ _ _ _ _ _) as [h0 o]. destruct Ht as [Ho Hd]. fold g in Hd.
  assert (Hrd : forall k, read h0 o k = get g k) by (intros k; unfold read; by rewrite Hd).
  cbn [fst snd] in *.
  split; [done|]. split; [done|].
  rewrite !with_host_other by done. rewrite with_host_host by done.
  rewrite with_defaults_retry, with_defaults_timeout by done.
  rewrite with_defaults_other by done. rewrite !Hrd.
  repeat split; try done.
  - intros k H1 H2 H3. rewrite with_host_other, with_defaults_other by done. apply Hrd.
  - intros l x Hl Hne. destruct o as [| | | | |lo]; try done.
    rewrite with_host_frame, with_defaults_frame by congruence. by apply Hfr.
Qed.

(** X11: what [makeOptionsObj] of the later version returns.  The object
    is the first argument itself when that is an object, and a new object
    made of the arguments otherwise.  In it [retryTimeMs] and [timeOutMs]
    are as given if positive integers and 250 and 2000 otherwise, [host]
    is as given unless it is [undefined], in which case it is
    ["127.0.0.1"] (a [null] host is kept), and every other property is as
    given; no other object of the heap is touched. *)
Theorem later_makeOptionsObj h port host inUse retryTimeMs timeOutMs :
  let g := given h port host inUse retryTimeMs timeOutMs in
  let r := Later.makeOptionsObj h port host inUse retryTimeMs timeOutMs in
  is_obj r.2 = true /\
  (if is_obj port then r.2 = port else r.2 = VObj (fresh (dom h))) /\
  read r.1 r.2 "retryTimeMs" = or_default (get g "retryTimeMs") RETRY_TIME /\
  read r.1 r.2 "timeOutMs" = or_default (get g "timeOutMs") TIMEOUT /\
  read r.1 r.2 "host" = Later.or_localhost (get g "host") /\
  (forall k, k <> "retryTimeMs" -> k <> "timeOutMs" -> k <> "host" ->
     read r.1 r.2 k = get g k) /\
  (forall l x, h !! l = Some x -> VObj l <> r.2 -> r.1 !! l = Some x).
Proof.
  intros g r.
  destruct (makeOptionsObj_result h port host inUse retryTimeMs timeOutMs)
    as (Ho & Href & Rr & Rt & Rh & Rk & Hfr).
  fold g r in Ho, Href, Rr, Rt, Rh, Rk, Hfr.
  split; [exact Ho|]. split; [exact Href|]. split; [exact Rr|].
  split; [exact Rt|]. split; [exact Rh|]. split; [exact Rk | exact Hfr].
Qed.

(** X12: [makeOptionsObj] of the later version is idempotent: applied to
    the object it returned, in the heap it left, it returns the same
    object and writes nothing. *)
Theorem later_makeOptionsObj_idempotent h port host inUse retryTimeMs timeOutMs :
  let r := Later.makeOptionsObj h port host inUse retryTimeMs timeOutMs in
  Later.makeOptionsObj r.1 r.2 VUndefined VUndefined VUndefined VUndefined = r.
Proof.
  intros r.
  destruct (makeOptionsObj_result h port host inUse retryTimeMs timeOutMs)
    as (Ho & _ & Rr & Rt & Rh & _). fold r in Ho, Rr, Rt, Rh.
  destruct r as [h1 o]. cbn [fst snd] in *.
  rewrite makeOptionsObj_eq. unfold target. rewrite Ho.
  rewrite with_defaults_fixed.
  - unfold Later.with_host. rewrite Rh. unfold strict_eq.
    rewrite bool_decide_eq_false_2; [done|]. apply or_localhost_defined.
  - rewrite Rr. by apply or_default_positive.
  - rewrite Rt. by apply or_default_positive.
Qed.

End later_options.

Section later_check.
Context `{!Util}.

Lemma given_port h port host a b c :
  get (given h port host a b c) "port" = Probe.port_of h port.
Proof.
  unfold given, Probe.port_of. destruct (is_obj port); [done|].
  unfold makeOptionsObj, get. by rewrite lookup_insert_eq.
Qed.

Lemma given_host h port host a b c :
  get (given h port host a b c) "host"
  = if is_obj port then read h port "host" else host.
Proof.
  unfold given. destruct (is_obj port); [done|].
  unfold makeOptionsObj, get. rewrite lookup_insert_ne by done.
  by rewrite lookup_insert_eq.
Qed.

Lemma assign_default_port (o : object) :
  get (Object_assign {["host" := VStr LOCALHOST]} [o]) "port" = get o "port".
Proof.
  unfold Object_assign, get. simpl. rewrite lookup_union.
  rewrite lookup_singleton_ne by done. by destruct (o !! "port").
Qed.

Lemma assign_default_host (o : object) :
  get o "host" <> VUndefined ->
  get (Object_assign {["host" := VStr LOCALHOST]} [o]) "host" = get o "host".
Proof.
  unfold Object_assign, get. simpl. rewrite lookup_union.
  by destruct (o !! "host").
Qed.

(** [check] of the later version, in one equation. *)
Lemma later_check_eq h port host :
  let h1 := (Later.makeOptionsObj h port host VUndefined VUndefined VUndefined).1 in
  let p := Probe.port_of h port in
  let host' := Later.or_localhost (if is_obj port then read h port "host" else host) in
  Later.check h port host
  = if is_port p
    then (h1, Probe.Mk Pending true (Some Probe.fresh_socket),
          [Probe.NewSocket; Probe.Once "connect"; Probe.Once "error";
           Probe.Connect p host'])
    else (h1, Probe.Mk (Rejected (new_Error ("invalid port: " ++ inspect h1 p))) true None,
          [Probe.Reject (new_Error ("invalid port: " ++ inspect h1 p))]).
Proof.
  intros h1 p host'. unfold Later.check.
  destruct (makeOptionsObj_result h port host VUndefined VUndefined VUndefined)
    as (Ho & _ & _ & _ & Rh & Rk & _).
  specialize (Rk "port" ltac:(done) ltac:(done) ltac:(done)).
  rewrite given_port in Rk. rewrite given_host in Rh.
  subst h1. destruct (Later.makeOptionsObj _ _ _ _ _ _) as [h1 o].
  cbn [fst snd] in *.
  rewrite assign_default_port.
  change (get (deref h1 o) "port") with (read h1 o "port"). rewrite Rk. fold p.
  destruct (is_port p); cbn [negb]; [|done].
  rewrite assign_default_host.
  - change (get (deref h1 o) "host") with (read h1 o "host"). by rewrite Rh.
  - change (get (deref h1 o) "host") with (read h1 o "host"). rewrite Rh.
    apply or_localhost_defined.
Qed.

(** X13: where [check] of the later version connects, and what it writes.
    With a valid port it connects to the host it is given, and to
    ["127.0.0.1"] whenever that host is [undefined], also when called with
    positional arguments, where [check] of [index.js] passes [undefined]
    on.  Given an options object, it writes the defaults of
    [makeOptionsObj] into the caller's object. *)
Theorem later_check_connects h port host :
  is_port (Probe.port_of h port) = true ->
  let r := Later.check h port host in
  let given_host := if is_obj port then read h port "host" else host in
  r.2 = [Probe.NewSocket; Probe.Once "connect"; Probe.Once "error";
         Probe.Connect (Probe.port_of h port) (Later.or_localhost given_host)] /\
  (given_host <> VUndefined ->
   r.2 = (Probe.check h port given_host).2 /\ r.1.2 = (Probe.check h port given_host).1) /\
  (is_obj port = true ->
   read r.1.1 port "retryTimeMs" = or_default (read h port "retryTimeMs") RETRY_TIME /\
   read r.1.1 port "timeOutMs" = or_default (read h port "timeOutMs") TIMEOUT /\
   read r.1.1 port "host" = Later.or_localhost (read h port "host")).
Proof.
  intros Hp r gh. subst r. rewrite later_check_eq, Hp. cbn [fst snd].
  split; [done|]. split.
  - intros Hgh. rewrite check_valid by done. cbn [fst snd]. split; [|done].
    do 4 f_equal. f_equal. unfold Later.or_localhost, strict_eq.
    rewrite bool_decide_eq_false_2 by done.
    subst gh. destruct (is_obj port) eqn:Ho.
    + unfold Probe.host_of, Probe.check_opts. rewrite Ho.
      rewrite assign_default_host; [done|]. exact Hgh.
    + by rewrite host_of_positional.
  - intros Ho.
    destruct (makeOptionsObj_result h port host VUndefined VUndefined VUndefined)
      as (_ & Href & Rr & Rt & Rh & _).
    rewrite Ho in Href. rewrite Href in Rr, Rt, Rh.
    rewrite Rr, Rt, Rh. unfold given. by rewrite Ho.
Qed.

End later_check.

Lemma later_check_connects_witness :
  (@Later.check sample_inspect ∅ (VNum 22) VUndefined).2
  = [Probe.NewSocket; Probe.Once "connect"; Probe.Once "error";
     Probe.Connect (VNum 22) (VStr "127.0.0.1")].
Proof.
  exact (proj1 (@later_check_connects sample_inspect ∅ (VNum 22) VUndefined eq_refl)).
Defined.

Section versions.

Lemma alike_refl s : Later.alike s s.
Proof. by repeat split. Qed.

Ltac alike_done :=
  unfold Later.alike; session_cbn; repeat split; done.

Lemma alike_reaction p s s' :
  Later.alike s s' -> Later.alike (reaction p s) (reaction p s').
Proof.
  destruct s as [h o d tid to rid tm n ps tr], s' as [h' o' d' tid' to' rid' tm' n' ps' tr'].
  unfold Later.alike at 1.
  cbn [hp opts deferred timeoutId timedOut retryId timers next_id probes trace].
  intros (Hsub & ? & Hd & ? & ? & ? & ? & ? & ? & ? & ?); subst.
  unfold reaction, onFulfilled, onRejected.
  cbn [hp opts timedOut]. unfold read. rewrite Hd. unfold cleanUp.
  destruct (Probe.deferred p) as [|used|err]; [alike_done| |].
  - destruct to; [alike_done|].
    destruct (strict_eq _ _).
    + destruct tid, rid; alike_done.
    + alike_done.
  - destruct to; [alike_done|].
    destruct tid, rid; alike_done.
Qed.

Lemma alike_timeoutFunc s s' :
  Later.alike s s' -> Later.alike (timeoutFunc s) (timeoutFunc s').
Proof.
  destruct s as [h o d tid to rid tm n ps tr], s' as [h' o' d' tid' to' rid' tm' n' ps' tr'].
  unfold Later.alike at 1.
  cbn [hp opts deferred timeoutId timedOut retryId timers next_id probes trace].
  intros (Hsub & ? & Hd & ? & ? & ? & ? & ? & ? & ? & ?); subst.
  unfold timeoutFunc, cleanUp.
  destruct tid, rid; alike_done.
Qed.

Lemma alike_set_timers t s s' :
  Later.alike s s' -> Later.alike (set_timers t s) (set_timers t s').
Proof.
  destruct s, s'. unfold Later.alike. session_cbn.
  intros (Hsub & ? & Hd & ? & ? & ? & ? & ? & ? & ? & ?); subst. repeat split; done.
Qed.

Lemma alike_log_probes acts ps s s' :
  Later.alike s s' ->
  Later.alike (log acts (set_probes ps s)) (log acts (set_probes ps s')).
Proof.
  destruct s, s'. unfold Later.alike. session_cbn.
  intros (Hsub & ? & Hd & ? & ? & ? & ? & ? & ? & ? & ?); subst. repeat split; done.
Qed.

Lemma alike_set_hp h1 s s' :
  Later.alike s s' -> hp s' ⊆ h1 ->
  deref h1 (opts s) = deref (hp s') (opts s) ->
  Later.alike s (set_hp h1 s').
Proof.
  destruct s, s'. unfold Later.alike. session_cbn.
  intros (Hsub & ? & Hd & ? & ? & ? & ? & ? & ? & ? & ?) Hsub' Hd'; subst.
  repeat split; try done.
  - by etrans.
  - by rewrite Hd'.
Qed.

Context `{!Util}.

Hypothesis inspect_primitive :
  forall h h' v, is_obj v = false -> inspect h v = inspect h' v.

Lemma alike_doCheck s s' :
  Later.alike s s' -> Later.plain_options (hp s) (opts s) ->
  Later.alike (doCheck s) (Later.doCheck s').
Proof.
  intros HA ((l & Eo & [x Hl]) & Hport & Hhost).
  pose proof HA as (Hsub & Eo' & Hd & _ & _ & _ & _ & _ & _ & Eps & _).
  unfold doCheck, Later.doCheck.
  assert (Hrd : forall k, read (hp s') (opts s') k = read (hp s) (opts s) k).
  { intros k. unfold read. by rewrite Eo', Hd. }
  rewrite !Hrd. set (port := read (hp s) (opts s) "port") in *.
  set (host := read (hp s) (opts s) "host") in *.
  rewrite later_check_eq. rewrite Hport.
  rewrite (port_of_positional (hp s') port) by done.
  assert (Eh : Later.or_localhost host = host).
  { unfold Later.or_localhost, strict_eq. by rewrite bool_decide_eq_false_2. }
  rewrite Eh.
  destruct (makeOptionsObj_result (hp s') port host VUndefined VUndefined VUndefined)
    as (_ & Href & _ & _ & _ & _ & Hfr).
  rewrite Hport in Href.
  set (h1 := (Later.makeOptionsObj (hp s') port host VUndefined VUndefined VUndefined).1) in *.
  assert (Hsub1 : hp s' ⊆ h1).
  { apply map_subseteq_spec. intros l0 x0 Hl0. apply Hfr; [done|].
    rewrite Href. intros [= ->]. by eapply fresh_not_there. }
  assert (Hd1 : deref h1 (opts s) = deref (hp s') (opts s)).
  { rewrite Eo. simpl.
    assert (Hl' : hp s' !! l = Some x) by (eapply lookup_weaken; eauto).
    rewrite Hl'. by rewrite (lookup_weaken _ _ _ _ Hl' Hsub1). }
  pose proof (alike_set_hp h1 s s' HA Hsub1 Hd1) as HA1.
  destruct (is_port port) eqn:Hp.
  - rewrite check_valid by (by rewrite port_of_positional).
    rewrite port_of_positional, host_of_positional by done.
    rewrite !Eps. by apply alike_reaction, alike_log_probes.
  - rewrite check_invalid by (by rewrite port_of_positional).
    rewrite port_of_positional by done.
    rewrite (inspect_primitive h1 (hp s) port Hport).
    rewrite !Eps. by apply alike_reaction, alike_log_probes.
Qed.

Lemma alike_step s s' e :
  Later.alike s s' -> Later.plain_options (hp s) (opts s) ->
  Later.alike (step s e) (Later.step s' e).
Proof.
  intros HA Hplain. pose proof HA as (_ & _ & _ & _ & _ & _ & _ & Etm & _ & Eps & _).
  destruct e as [id|i ev]; simpl; rewrite ?Etm, ?Eps.
  - destruct (timers s !! id) as [[[|] d]|]; [| |done].
    + by apply alike_timeoutFunc, alike_set_timers.
    + apply alike_doCheck; [by apply alike_set_timers | by destruct s].
  - destruct (probes s !! i) as [p|]; [|done].
    destruct (Probe.emit p ev) as [p' acts].
    destruct (settled _); [by apply alike_log_probes|].
    by apply alike_reaction, alike_log_probes.
Qed.

Lemma alike_run s s' evs :
  Later.alike s s' -> Later.plain_options (hp s) (opts s) ->
  Later.alike (run s evs) (Later.run s' evs).
Proof.
  revert s s'. induction evs as [|e evs IH]; intros s s' HA Hp; [done|].
  simpl. apply IH; [by apply alike_step|].
  destruct (step_frame s e) as [-> ->]. done.
Qed.

Lemma later_waitForStatus_eq h options :
  Later.waitForStatus h options
  = let '(h0, o) :=
      Later.makeOptionsObj h options VUndefined VUndefined VUndefined VUndefined in
    if is_bool (read h0 o "inUse") then Later.doCheck (armed h0 o) else refused h0 o.
Proof.
  unfold Later.waitForStatus. destruct (Later.makeOptionsObj _ _ _ _ _ _) as [h0 o].
  by destruct (is_bool _).
Qed.

Lemma read_defined_exists (h : heap) l k :
  read h (VObj l) k <> VUndefined -> is_Some (h !! l).
Proof.
  unfold read, get. simpl. destruct (h !! l); [by eexists|].
  simpl. by rewrite lookup_empty.
Qed.

Lemma positive_defined v : is_positiveInt v = true -> v <> VUndefined.
Proof. by destruct v. Qed.

Lemma later_makeOptionsObj_fixed h o :
  is_obj o = true ->
  is_positiveInt (read h o "retryTimeMs") = true ->
  is_positiveInt (read h o "timeOutMs") = true ->
  read h o "host" <> VUndefined ->
  Later.makeOptionsObj h o VUndefined VUndefined VUndefined VUndefined = (h, o).
Proof.
  intros Ho Hr Ht Hh. rewrite makeOptionsObj_eq. unfold target. rewrite Ho.
  rewrite with_defaults_fixed by done. unfold Later.with_host, strict_eq.
  by rewrite bool_decide_eq_false_2.
Qed.

Lemma later_result_plain h port host inUse retryTimeMs timeOutMs :
  let r := Later.makeOptionsObj h port host inUse retryTimeMs timeOutMs in
  is_obj (read r.1 r.2 "port") = false -> Later.plain_options r.1 r.2.
Proof.
  intros r Hport.
  destruct (makeOptionsObj_result h port host inUse retryTimeMs timeOutMs)
    as (Ho & _ & _ & Rt & Rh & _). fold r in Ho, Rt, Rh.
  split; [|split; [done|]].
  - destruct (r.2) as [| | | | |l] eqn:E; try done. exists l. split; [done|].
    apply (read_defined_exists _ _ "timeOutMs"). rewrite Rt.
    apply positive_defined. by apply or_default_positive.
  - rewrite Rh. apply or_localhost_defined.
Qed.

(** The sessions of the two versions are alike. *)
Lemma alike_waitForStatus h options evs :
  let r := Later.makeOptionsObj h options VUndefined VUndefined VUndefined VUndefined in
  is_obj (read r.1 r.2 "port") = false ->
  Later.alike
    (run (waitForStatus r.1 r.2 VUndefined VUndefined VUndefined VUndefined) evs)
    (Later.run (Later.waitForStatus h options) evs).
Proof.
  intros r Hport.
  pose proof (later_result_plain h options VUndefined VUndefined VUndefined VUndefined Hport)
    as Hplain. fold r in Hplain.
  destruct (makeOptionsObj_result h options VUndefined VUndefined VUndefined VUndefined)
    as (Ho & _ & Rr & Rt & _). fold r in Ho, Rr, Rt.
  rewrite later_waitForStatus_eq, waitForStatus_eq. fold r.
  unfold target. rewrite Ho. destruct r as [h1 o]. cbn [fst snd] in *.
  rewrite with_defaults_fixed
    by (rewrite ?Rr, ?Rt; by apply or_default_positive).
  destruct (is_bool (read h1 o "inUse")).
  - apply alike_run.
    + apply alike_doCheck; [apply alike_refl | done].
    + by destruct (doCheck_frame (armed h1 o)) as [-> ->].
  - apply alike_run; [apply alike_refl | done].
Qed.

(** X14: the two versions agree.  On options whose port is not an object,
    [waitForStatus] of the later version behaves, whatever the events, as
    [waitForStatus] of [index.js] called on the object [makeOptionsObj]
    returns: the same outer promise, timers, probes and trace; the heap of
    the later version only holds more objects.  ([util.inspect] is taken
    not to look at the heap when it prints a value that is not an
    object.) *)
Theorem versions_agree h options evs :
  let r := Later.makeOptionsObj h options VUndefined VUndefined VUndefined VUndefined in
  is_obj (read r.1 r.2 "port") = false ->
  let s := run (waitForStatus r.1 r.2 VUndefined VUndefined VUndefined VUndefined) evs in
  let s' := Later.run (Later.waitForStatus h options) evs in
  deferred s' = deferred s /\
  timers s' = timers s /\
  timeoutId s' = timeoutId s /\
  retryId s' = retryId s /\
  timedOut s' = timedOut s /\
  probes s' = probes s /\
  trace s' = trace s /\
  opts s' = opts s /\
  hp s ⊆ hp s' /\
  deref (hp s') (opts s) = deref (hp s) (opts s).
Proof.
  intros r Hport s s'.
  destruct (alike_waitForStatus h options evs Hport)
    as (Hsub & Eo & Hd & Ed & Eti & Eto & Eri & Etm & _ & Eps & Etr).
  fold r s s' in Hsub, Eo, Hd, Ed, Eti, Eto, Eri, Etm, Eps, Etr.
  repeat split; assumption.
Qed.

End versions.

Section later_wrappers.
Context `{!Util}.

Lemma later_wrapper_session h options b evs :
  (forall h h' v, is_obj v = false -> inspect h v = inspect h' v) ->
  let g := given h options VUndefined VUndefined VUndefined VUndefined in
  let r := Later.makeOptionsObj h options VUndefined VUndefined VUndefined VUndefined in
  is_obj (get g "port") = false ->
  let s := Later.run
             (Later.waitForStatus
                (alloc r.1 (Object_assign ∅ [deref r.1 r.2; {["inUse" := VBool b]}])).1
                (alloc r.1 (Object_assign ∅ [deref r.1 r.2; {["inUse" := VBool b]}])).2)
             evs in
  read (hp s) (opts s) "host" = Later.or_localhost (get g "host") /\
  read (hp s) (opts s) "inUse" = VBool b /\
  read (hp s) (opts s) "port" = get g "port" /\
  read (hp s) (opts s) "retryTimeMs" = or_default (get g "retryTimeMs") RETRY_TIME /\
  read (hp s) (opts s) "timeOutMs" = or_default (get g "timeOutMs") TIMEOUT /\
  opts s = VObj (fresh (dom r.1)) /\
  (forall l x, r.1 !! l = Some x -> hp s !! l = Some x).
Proof.
  intros Hins g r Hport.
  destruct (makeOptionsObj_result h options VUndefined VUndefined VUndefined VUndefined)
    as (Ho & _ & Rr & Rt & Rh & Rk & _). fold r g in Ho, Rr, Rt, Rh, Rk.
  rewrite assign_copy. unfold alloc. cbn [fst snd].
  set (c := fresh (dom r.1)) in *.
  set (copy := <["inUse" := VBool b]> (deref r.1 r.2)) in *.
  set (h2 := <[c := copy]> r.1) in *.
  cbv zeta. set (s := Later.run (Later.waitForStatus h2 (VObj c)) evs).
  assert (Hrd : forall k, read h2 (VObj c) k = get copy k).
  { intros k. unfold read. subst h2. simpl. by rewrite lookup_insert_eq. }
  assert (Hcopy : forall k, k <> "inUse" -> get copy k = read r.1 r.2 k).
  { intros k Hk. subst copy. by rewrite get_insert_ne. }
  assert (Hfix : Later.makeOptionsObj h2 (VObj c) VUndefined VUndefined VUndefined VUndefined
                 = (h2, VObj c)).
  { apply later_makeOptionsObj_fixed; [done|..]; rewrite Hrd, Hcopy by done.
    - rewrite Rr. by apply or_default_positive.
    - rewrite Rt. by apply or_default_positive.
    - rewrite Rh. apply or_localhost_defined. }
  pose proof (alike_waitForStatus Hins h2 (VObj c) evs) as HA. rewrite Hfix in HA.
  cbn [fst snd] in HA. fold s in HA.
  specialize (HA ltac:(rewrite Hrd, Hcopy by done;
                       rewrite (Rk "port") by done; exact Hport)).
  destruct HA as (Hsub & Eo & Hd & _).
  destruct (session_reads h2 (VObj c) VUndefined VUndefined VUndefined VUndefined evs)
    as (Ru & Rp' & Rh' & Rr' & Rt').
  { unfold given. cbn [is_obj]. change (deref h2 (VObj c)) with (default ∅ (h2 !! c)).
    subst h2. rewrite lookup_insert_eq. simpl. subst copy. by rewrite get_insert_eq. }
  pose proof (session_heap h2 c evs) as Eh.
  destruct (run_frame (waitForStatus h2 (VObj c) VUndefined VUndefined VUndefined VUndefined) evs)
    as [_ Eopts].
  assert (Eo0 : opts (waitForStatus h2 (VObj c) VUndefined VUndefined VUndefined VUndefined)
                = VObj c).
  { rewrite waitForStatus_eq. unfold target. cbn [is_obj].
    destruct (is_bool _); [|done].
    by destruct (doCheck_frame (armed (with_defaults h2 (VObj c)) (VObj c))) as [_ ->]. }
  rewrite Eo0 in Eopts.
  set (si := run (waitForStatus h2 (VObj c) VUndefined VUndefined VUndefined VUndefined) evs) in *.
  assert (Hrs : forall k, read (hp s) (opts s) k = read (hp si) (opts si) k).
  { intros k. unfold read. by rewrite Eo, Hd. }
  assert (Hg : forall k, get (given h2 (VObj c) VUndefined VUndefined VUndefined VUndefined) k
                         = get copy k).
  { intros k. unfold given. cbn [is_obj]. apply Hrd. }
  rewrite !Hrs, Ru, Rp', Rh', Rr', Rt', !Hg.
  rewrite (Hcopy "host"), (Hcopy "port"), (Hcopy "retryTimeMs"), (Hcopy "timeOutMs")
    by done.
  rewrite Rr, Rt, Rh, (Rk "port") by done.
  rewrite !or_default_idem by done.
  split; [done|]. split; [by subst copy; rewrite get_insert_eq|].
  split; [done|]. split; [done|]. split; [done|].
  split; [by rewrite Eo, Eopts|].
  intros l x Hl. eapply lookup_weaken; [|exact Hsub].
  rewrite Eh. 
  assert (Hl2 : h2 !! l = Some x).
  { subst h2. rewrite lookup_insert_ne; [done|]. by eapply fresh_not_there. }
  destruct (is_bool _); [|done].
  rewrite with_defaults_fixed; [done|..]; rewrite Hrd, Hcopy by done.
  - rewrite Rr. by apply or_default_positive.
  - rewrite Rt. by apply or_default_positive.
Qed.

(** X15: the wrappers of the later version pass the caller's host on.  On
    options whose port is not an object, the sessions of [waitUntilFree]
    and [waitUntilUsed] work on a new object in which [inUse] is [false]
    and [true], the host is the caller's, or ["127.0.0.1"] when that is
    [undefined], and the port and the two durations are the caller's with
    the defaults.  [makeOptionsObj] has written the defaults into the
    caller's own object, which stays as [makeOptionsObj] left it: its
    [inUse] is never written. *)
Theorem later_wrappers_keep_host h options evs :
  (forall h h' v, is_obj v = false -> inspect h v = inspect h' v) ->
  let g := given h options VUndefined VUndefined VUndefined VUndefined in
  let r := Later.makeOptionsObj h options VUndefined VUndefined VUndefined VUndefined in
  is_obj (get g "port") = false ->
  let sf := Later.run (Later.waitUntilFree h options) evs in
  let su := Later.run (Later.waitUntilUsed h options) evs in
  (read (hp sf) (opts sf) "host" = Later.or_localhost (get g "host") /\
   read (hp sf) (opts sf) "inUse" = VBool false /\
   read (hp sf) (opts sf) "port" = get g "port" /\
   read (hp sf) (opts sf) "retryTimeMs" = or_default (get g "retryTimeMs") RETRY_TIME /\
   read (hp sf) (opts sf) "timeOutMs" = or_default (get g "timeOutMs") TIMEOUT) /\
  (read (hp su) (opts su) "host" = Later.or_localhost (get g "host") /\
   read (hp su) (opts su) "inUse" = VBool true /\
   read (hp su) (opts su) "port" = get g "port" /\
   read (hp su) (opts su) "retryTimeMs" = or_default (get g "retryTimeMs") RETRY_TIME /\
   read (hp su) (opts su) "timeOutMs" = or_default (get g "timeOutMs") TIMEOUT) /\
  opts sf <> r.2 /\ opts su <> r.2 /\
  deref (hp sf) r.2 = deref r.1 r.2 /\
  deref (hp su) r.2 = deref r.1 r.2 /\
  read r.1 r.2 "inUse" = get g "inUse".
Proof.
  intros Hins g r Hport sf su.
  assert (EF : sf = Later.run (Later.waitForStatus
      (alloc r.1 (Object_assign ∅ [deref r.1 r.2; {["inUse" := VBool false]}])).1
      (alloc r.1 (Object_assign ∅ [deref r.1 r.2; {["inUse" := VBool false]}])).2) evs).
  { subst sf. unfold Later.waitUntilFree. fold r. destruct r. reflexivity. }
  assert (EU : su = Later.run (Later.waitForStatus
      (alloc r.1 (Object_assign ∅ [deref r.1 r.2; {["inUse" := VBool true]}])).1
      (alloc r.1 (Object_assign ∅ [deref r.1 r.2; {["inUse" := VBool true]}])).2) evs).
  { subst su. unfold Later.waitUntilUsed. fold r. destruct r. reflexivity. }
  destruct (later_wrapper_session h options false evs Hins Hport)
    as (F1 & F2 & F3 & F4 & F5 & F6 & F7).
  destruct (later_wrapper_session h options true evs Hins Hport)
    as (U1 & U2 & U3 & U4 & U5 & U6 & U7).
  fold r g in F1, F2, F3, F4, F5, F6, F7, U1, U2, U3, U4, U5, U6, U7.
  rewrite <- EF in F1, F2, F3, F4, F5, F6, F7.
  rewrite <- EU in U1, U2, U3, U4, U5, U6, U7.
  destruct (makeOptionsObj_result h options VUndefined VUndefined VUndefined VUndefined)
    as (Ho & _ & _ & Rt & _ & Rk & _). fold r g in Ho, Rt, Rk.
  assert (Hex : exists l x, r.2 = VObj l /\ r.1 !! l = Some x).
  { destruct (r.2) as [| | | | |l] eqn:E; try done.
    destruct (read_defined_exists r.1 l "timeOutMs") as [x Hx].
    - rewrite Rt. apply positive_defined. by apply or_default_positive.
    - by exists l, x. }
  destruct Hex as (l & x & El & Hl).
  clear EF EU. clearbody sf su r g.
  split; [by repeat split|]. split; [by repeat split|].
  split; [|split; [|split; [|split]]].
  - rewrite F6, El. intros [= E]. by eapply fresh_not_there.
  - rewrite U6, El. intros [= E]. by eapply fresh_not_there.
  - rewrite El. simpl. by rewrite (F7 _ _ Hl), Hl.
  - rewrite El. simpl. by rewrite (U7 _ _ Hl), Hl.
  - by apply Rk.
Qed.

End later_wrappers.

Lemma versions_agree_witness :
  let h : heap := {[0 := <["port" := VNum 44204]> {["inUse" := VBool true]}]} in
  let r := Later.makeOptionsObj h (VObj 0) VUndefined VUndefined VUndefined VUndefined in
  trace (Later.run (H := sample_inspect) (@Later.waitForStatus sample_inspect h (VObj 0))
           [SocketEmits 0 (Probe.EvError (Error (VStr "ECONNREFUSED") "refused"));
            TimerFires 1])
  = trace (run (H := sample_inspect)
             (@waitForStatus sample_inspect r.1 r.2 VUndefined VUndefined VUndefined VUndefined)
             [SocketEmits 0 (Probe.EvError (Error (VStr "ECONNREFUSED") "refused"));
              TimerFires 1]).
Proof.
  pose proof (@versions_agree sample_inspect (fun _ _ _ _ => eq_refl)
    {[0 := <["port" := VNum 44204]> {["inUse" := VBool true]}]} (VObj 0)
    [SocketEmits 0 (Probe.EvError (Error (VStr "ECONNREFUSED") "refused"));
     TimerFires 1] eq_refl) as Hw.
  cbv zeta in Hw.
  exact (proj1 (proj2 (proj2 (proj2 (proj2 (proj2 (proj2 Hw))))))).
Defined.

Lemma later_wrappers_keep_host_witness :
  let h : heap := {[0 := <["port" := VNum 44203]> {["host" := VStr "some.host.com"]}]} in
  let sf := @Later.waitUntilFree sample_inspect h (VObj 0) in
  read (hp sf) (opts sf) "host" = VStr "some.host.com".
Proof.
  pose proof (@later_wrappers_keep_host sample_inspect
    {[0 := <["port" := VNum 44203]> {["host" := VStr "some.host.com"]}]} (VObj 0) []
    (fun _ _ _ _ => eq_refl) eq_refl) as Hw.
  cbv zeta in Hw. exact (proj1 (proj1 Hw)).
Defined.
